(** * Brickster: the Amazon co-purchasing notebook

    A shallow embedding of [AmazonProductDataExploration.py].  The notebook
    is a chain of Spark DataFrame calls; a DataFrame is modelled as the list
    of its rows, a nullable column as an [option], and every framework
    primitive the notebook calls ([regexp_extract], [split], [explode],
    [groupBy], the SQL self-join, [intersect], the CSV reader, GraphFrames'
    [bfs]) as the function on rows that the framework documents.  Where a
    primitive parses text (the CSV tokenizer, [Integer.parseInt], the SQL
    parser) it is modelled on the text the data sets are made of, and what
    it does with other text is a parameter, the session. *)

From Stdlib Require Import List ZArith QArith Bool String Ascii Lia Permutation.
From Stdlib Require Import Sorted.
From Stdlib Require Decimal DecimalString DecimalN.
Import ListNotations.

Open Scope Z_scope.

(* ===================================================================== *)
(** * Part I: definitions *)
(* ===================================================================== *)

(* --------------------------------------------------------------------- *)
(** ** SQL values: NULL and three-valued logic *)
(* --------------------------------------------------------------------- *)

(** [IntegerType()] with [nullable = True]. *)
Definition IntegerType : Type := option Z.

(** A comparison or connective evaluates to TRUE, FALSE or NULL. *)
Definition sql_bool : Type := option bool.

(** [a = b]: NULL as soon as one side is NULL. *)
Definition sql_eq (a b : IntegerType) : sql_bool :=
  match a, b with
  | Some x, Some y => Some (x =? y)
  | _, _ => None
  end.

(** [p AND q] in Kleene's logic. *)
Definition sql_and (p q : sql_bool) : sql_bool :=
  match p, q with
  | Some false, _ => Some false
  | _, Some false => Some false
  | Some true, Some true => Some true
  | _, _ => None
  end.

(** A join or filter keeps a row only when its condition is TRUE. *)
Definition sql_holds (p : sql_bool) : bool :=
  match p with
  | Some true => true
  | _ => false
  end.

(* --------------------------------------------------------------------- *)
(** ** Edge rows ([conn_schema]) *)
(* --------------------------------------------------------------------- *)

(** [conn_schema]: two nullable integer columns. *)
Record Edge : Type := mkEdge {
  FromNodeId : IntegerType;
  ToNodeId : IntegerType
}.

(** The schema as the type of the rows it describes. *)
Definition conn_schema : Type := Edge.

Definition Edge_eq_dec (x y : Edge) : {x = y} + {x <> y}.
Proof.
  decide equality; decide equality; apply Z.eq_dec.
Defined.

(** Rows are compared NULL-safely by [DISTINCT] and [intersect]: two NULLs
    are the same value there. *)
Definition Edge_eqb (x y : Edge) : bool :=
  if Edge_eq_dec x y then true else false.

(** [SELECT DISTINCT] and the de-duplication of [intersect]. *)
Definition distinct (rows : list Edge) : list Edge := nodup Edge_eq_dec rows.

(** [a.intersect(b)]: the distinct rows of [a] that also occur in [b]. *)
Definition intersect (a b : list Edge) : list Edge :=
  distinct (filter (fun r => existsb (Edge_eqb r) b) a).

(* --------------------------------------------------------------------- *)
(** ** Q2: consistently bidirectional pairs *)
(* --------------------------------------------------------------------- *)

(** [ON e1.FromNodeId = e2.ToNodeId AND e1.ToNodeId = e2.FromNodeId]. *)
Definition swapped_on (e1 e2 : Edge) : sql_bool :=
  sql_and (sql_eq (FromNodeId e1) (ToNodeId e2))
          (sql_eq (ToNodeId e1) (FromNodeId e2)).

(** [FROM t e1 JOIN t e2 ON ...]: the pairs of rows of [t] that satisfy the
    join condition. *)
Definition self_join (t : list Edge) : list (Edge * Edge) :=
  flat_map (fun e1 =>
    flat_map (fun e2 =>
      if sql_holds (swapped_on e1 e2) then [(e1, e2)] else []) t) t.

(** The query run on each snapshot:
    [SELECT DISTINCT e1.FromNodeId, e1.ToNodeId FROM t e1 JOIN t e2 ON ...]. *)
Definition bidirectional_edges (t : list Edge) : list Edge :=
  distinct (map (fun p => mkEdge (FromNodeId (fst p)) (ToNodeId (fst p)))
                (self_join t)).

Definition bidirectional_edges_early_march := bidirectional_edges.
Definition bidirectional_edges_late_march := bidirectional_edges.
Definition bidirectional_edges_may := bidirectional_edges.
Definition bidirectional_edges_june := bidirectional_edges.

(** [consistent_bidirectional_edges]: the three chained [intersect]s. *)
Definition consistent_bidirectional_edges
    (early_march_df late_march_df may_df june_df : list Edge) : list Edge :=
  intersect
    (intersect
       (intersect (bidirectional_edges_early_march early_march_df)
                  (bidirectional_edges_late_march late_march_df))
       (bidirectional_edges_may may_df))
    (bidirectional_edges_june june_df).

(** A directed edge between two present node ids. *)
Definition edge (u v : Z) : Edge := mkEdge (Some u) (Some v).

(** Four synthetic snapshots: (1,2) is bidirectional in all of them, (3,4)
    in the first three only. *)
Definition snapshot_both : list Edge :=
  [edge 1 2; edge 2 1; edge 3 4; edge 4 3].
Definition snapshot_one_way : list Edge :=
  [edge 1 2; edge 2 1; edge 3 4].

(* --------------------------------------------------------------------- *)
(** ** Regular expressions ([java.util.regex], as Spark uses it) *)
(* --------------------------------------------------------------------- *)

(** Text is a sequence of 8-bit characters.  The notebook's patterns use
    literal characters, the predefined classes, brackets joining two of them and
    greedy or reluctant repetition of a single class; groups capture. *)

Definition text : Type := list ascii.

Definition code (c : ascii) : N := N_of_ascii c.

Definition in_range (lo hi : N) (c : ascii) : bool :=
  ((lo <=? code c)%N && (code c <=? hi)%N)%bool.

(** [\d] is [0-9]. *)
Definition is_digit (c : ascii) : bool := in_range 48 57 c.

(** [\s] is space, tab, line feed, vertical tab, form feed, carriage
    return. *)
Definition is_space (c : ascii) : bool :=
  ((code c =? 32)%N || in_range 9 13 c)%bool.

(** [\w] is [a-zA-Z_0-9]. *)
Definition is_word (c : ascii) : bool :=
  (in_range 97 122 c || in_range 65 90 c || (code c =? 95)%N
   || is_digit c)%bool.

(** [.] is any character but a line terminator. *)
Definition is_dot (c : ascii) : bool :=
  negb ((code c =? 10)%N || (code c =? 13)%N)%bool.

Inductive cls : Type :=
| Lit (c : ascii)          (* the character itself *)
| Digit                    (* \d *)
| Space                    (* \s *)
| NotSpace                 (* \S *)
| Word                     (* \w *)
| NotWord                  (* \W *)
| Dot                      (* . *)
| Union (a b : cls).       (* [ab] : either class *)

Fixpoint cls_matches (k : cls) (c : ascii) : bool :=
  match k with
  | Lit a => Ascii.eqb a c
  | Digit => is_digit c
  | Space => is_space c
  | NotSpace => negb (is_space c)
  | Word => is_word c
  | NotWord => negb (is_word c)
  | Dot => is_dot c
  | Union a b => (cls_matches a c || cls_matches b c)%bool
  end.

Inductive Pattern : Type :=
| Eps                          (* the empty pattern *)
| Str (s : string)             (* a run of literal characters *)
| Atom (k : cls)               (* one character of a class *)
| Star (k : cls)               (* k*  greedy *)
| Plus (k : cls)               (* k+  greedy *)
| LazyStar (k : cls)           (* k*? reluctant *)
| Seq (r1 r2 : Pattern)
| Group (n : nat) (r : Pattern). (* the n-th capturing group *)

Definition seq (rs : list Pattern) : Pattern := fold_right Seq Eps rs.

(** Group number and captured text, most recent first. *)
Definition captures : Type := list (nat * text).

Fixpoint strip_prefix (p s : text) : option text :=
  match p, s with
  | [], _ => Some s
  | a :: p', c :: s' => if Ascii.eqb a c then strip_prefix p' s' else None
  | _ :: _, [] => None
  end.

(** What is left of the input after a match, with the groups. *)
Definition outcome : Type := option (text * captures).

(** Greedy repetition: take one more character first, give it back when
    the rest of the pattern fails. *)
Fixpoint star_greedy (p : ascii -> bool) (s : text)
    (k : text -> outcome) : outcome :=
  match s with
  | c :: s' =>
      if p c then
        match star_greedy p s' k with
        | Some r => Some r
        | None => k s
        end
      else k s
  | [] => k s
  end.

(** Reluctant repetition: try the rest of the pattern first. *)
Fixpoint star_lazy (p : ascii -> bool) (s : text)
    (k : text -> outcome) : outcome :=
  match k s with
  | Some r => Some r
  | None =>
      match s with
      | c :: s' => if p c then star_lazy p s' k else None
      | [] => None
      end
  end.

(** The text consumed between two suffixes of the same input. *)
Definition consumed (s s' : text) : text :=
  firstn (List.length s - List.length s') s.

(** The backtracking matcher, anchored at the start of [s]; [k] is the rest
    of the pattern. *)
Fixpoint rmatch (r : Pattern) (s : text) (caps : captures)
    (k : text -> captures -> outcome) : outcome :=
  match r with
  | Eps => k s caps
  | Str t =>
      match strip_prefix (list_ascii_of_string t) s with
      | Some s' => k s' caps
      | None => None
      end
  | Atom c =>
      match s with
      | x :: s' => if cls_matches c x then k s' caps else None
      | [] => None
      end
  | Star c => star_greedy (cls_matches c) s (fun s' => k s' caps)
  | Plus c =>
      match s with
      | x :: s' =>
          if cls_matches c x
          then star_greedy (cls_matches c) s' (fun s'' => k s'' caps)
          else None
      | [] => None
      end
  | LazyStar c => star_lazy (cls_matches c) s (fun s' => k s' caps)
  | Seq r1 r2 => rmatch r1 s caps (fun s' caps' => rmatch r2 s' caps' k)
  | Group n r1 =>
      rmatch r1 s caps
        (fun s' caps' => k s' ((n, consumed s s') :: caps'))
  end.

Definition match_here (r : Pattern) (s : text) : outcome :=
  rmatch r s [] (fun s' caps => Some (s', caps)).

(** A match found by [Matcher.find]: the text before it, the matched text,
    the text after it, and the groups. *)
Record found : Type := mkFound {
  before : text;
  matched : text;
  after : text;
  groups : captures
}.

(** [find_at r pre s]: the leftmost match in [s], where [pre] is the text
    already skipped, in reverse. *)
Fixpoint find_at (r : Pattern) (pre : text) (s : text) : option found :=
  match match_here r s with
  | Some (s', caps) => Some (mkFound (rev pre) (consumed s s') s' caps)
  | None =>
      match s with
      | c :: s' => find_at r (c :: pre) s'
      | [] => None
      end
  end.

Definition find (r : Pattern) (s : text) : option found := find_at r [] s.

Fixpoint lookup_group (n : nat) (caps : captures) : option text :=
  match caps with
  | [] => None
  | (m, t) :: caps' => if Nat.eqb m n then Some t else lookup_group n caps'
  end.

(** [F.regexp_extract(col, pattern, idx)]: group [idx] of the first match,
    the empty string when the pattern does not match or the group took no
    part in the match. *)
Definition regexp_extract (s : string) (r : Pattern) (idx : nat) : string :=
  match find r (list_ascii_of_string s) with
  | None => EmptyString
  | Some f =>
      match idx with
      | O => string_of_list_ascii (matched f)
      | _ =>
          match lookup_group idx (groups f) with
          | Some t => string_of_list_ascii t
          | None => EmptyString
          end
      end
  end.

(** [String.split(regex, -1)]: the pieces between successive matches, with
    trailing empty pieces kept; the whole input when nothing matches.  The
    separators of the notebook never match the empty text; an empty match
    ends the scan. *)
Fixpoint split_fuel (fuel : nat) (r : Pattern) (s : text) : list text :=
  match fuel with
  | O => [s]
  | S fuel' =>
      match find r s with
      | None => [s]
      | Some f =>
          match matched f with
          | [] => [s]
          | _ :: _ => before f :: split_fuel fuel' r (after f)
          end
      end
  end.

(** [F.split(col, pattern)]. *)
Definition split (s : string) (r : Pattern) : list string :=
  map string_of_list_ascii
      (split_fuel (S (String.length s)) r (list_ascii_of_string s)).

(* --------------------------------------------------------------------- *)
(** ** Reading product detail data ([metadata_df]) *)
(* --------------------------------------------------------------------- *)

Definition CR : ascii := "013"%char.
Definition LF : ascii := "010"%char.

(** The Python literal ["\r\n"]. *)
Definition CRLF : string := String CR (String LF EmptyString).

(** The node id and ASIN pattern of the [id] and [asin] columns:
    [(\d+)\s*\nASIN:\s+(\w+)\s*\n]. *)
Definition id_regex : Pattern :=
  seq [Group 1 (Plus Digit); Star Space; Atom (Lit LF);
       Str "ASIN:"; Plus Space; Group 2 (Plus Word); Star Space;
       Atom (Lit LF)].

(** The composite pattern [regex] of the notebook, group by group. *)
Definition regex : Pattern :=
  seq [Str "Id:"; Star Space; Group 1 (Plus Digit); Star Space;
       Atom (Lit LF);
       Str "ASIN:"; Plus Space; Group 2 (Plus Word); Star Space;
       Atom (Lit LF); Star Space;
       Str "title:"; Star Space; Group 3 (Plus (Union Word NotWord));
       Star Space; Atom (Lit CR); Atom (Lit LF); Star Space;
       Str "group:"; Plus Space; Group 4 (Plus Dot); Star Space;
       Atom (Lit LF); Star Space;
       Str "salesrank:"; Star Space;
       Group 5 (Seq (Star (Lit "-")) (Plus Digit)); Star Space;
       Atom (Lit LF); Star Space;
       Str "similar:"; Plus Space; Group 6 (Plus Digit); Star Space;
       Group 7 (Seq (Star Digit) (LazyStar Dot)); Star Space;
       Atom (Lit LF); Star Space;
       Str "categories:"; Star Space; Group 8 (Plus Digit); Star Space;
       Atom (Lit LF); Star Space;
       Group 9 (Star (Union Space NotSpace));
       Str "reviews:"; Plus Space; Str "total:"; Plus Space;
       Group 10 (Plus Digit); Plus Space;
       Str "downloaded:"; Plus Space; Group 11 (Plus Digit); Plus Space;
       Str "avg rating:"; Plus Space;
       Group 12 (seq [Plus Digit; Star (Lit "."); Star Digit]); Star Space;
       Atom (Lit LF); Star Space;
       Group 13 (Star (Union Space NotSpace))].

(** A row of [metadata_df]: the raw block and the columns added to it. *)
Record Product : Type := mkProduct {
  value : string;
  id : string;
  asin : string;
  title : string;
  group : string;
  salesrank : string;
  similar_count : string;
  similar : list string;
  categories_count : string;
  categories : list string;
  reviews_total : string;
  reviews_downloaded : string;
  reviews_avg_rating : string;
  reviews : list string
}.

Fixpoint drop_last_empty (l : list string) : list string :=
  match l with
  | [] => []
  | [x] => if String.eqb x EmptyString then [] else [x]
  | x :: l' => x :: drop_last_empty l'
  end.

(** [spark.read.text(path, lineSep=sep)]: one row per piece of the file
    between separators; the end of the file closes the last row, and a file
    that ends with the separator has no empty row after it. *)
Definition read_text (file : string) (lineSep : string) : list string :=
  drop_last_empty (split file (Str lineSep)).

(** [df1]: the blocks of the metadata file. *)
Definition df1 (meta_file : string) : list string :=
  read_text meta_file (CRLF ++ CRLF).

(** The chain of [withColumn] calls on one row: thirteen extractions, then
    the three columns that are replaced by their [F.split]. *)
Definition with_columns (v : string) : Product :=
  let id := regexp_extract v id_regex 1 in
  let asin := regexp_extract v id_regex 2 in
  let title := regexp_extract v regex 3 in
  let group := regexp_extract v regex 4 in
  let salesrank := regexp_extract v regex 5 in
  let similar_count := regexp_extract v regex 6 in
  let similar := regexp_extract v regex 7 in
  let categories_count := regexp_extract v regex 8 in
  let categories := regexp_extract v regex 9 in
  let reviews_total := regexp_extract v regex 10 in
  let reviews_downloaded := regexp_extract v regex 11 in
  let reviews_avg_rating := regexp_extract v regex 12 in
  let reviews := regexp_extract v regex 13 in
  let similar := split similar (Plus Space) in
  let categories := split categories (Str CRLF) in
  let reviews := split reviews (Str CRLF) in
  mkProduct v id asin title group salesrank similar_count similar
            categories_count categories reviews_total reviews_downloaded
            reviews_avg_rating reviews.

(** The [where] clause: [id] is not NULL and is not the empty string.
    [regexp_extract] of a block, which is never NULL, is never NULL. *)
Definition id_present (r : Product) : bool :=
  negb (String.eqb (id r) EmptyString).

(** [metadata_df] as a function of the metadata file's content. *)
Definition metadata_df (meta_file : string) : list Product :=
  filter id_present (map with_columns (df1 meta_file)).

(** Lines joined with CR LF, for writing blocks down. *)
Definition crlf_lines (ls : list string) : string :=
  String.concat CRLF ls.

(** The id and ASIN columns of a block. *)
Definition block_id (v : string) : string := regexp_extract v id_regex 1.
Definition block_asin (v : string) : string := regexp_extract v id_regex 2.

(** The block does not match the composite pattern anywhere. *)
Definition composite_fails (v : string) : Prop :=
  find regex (list_ascii_of_string v) = None.

(** The row of a block on which the composite pattern fails: only [value],
    [id] and [asin] carry text. *)
Definition defaults_row (v : string) : Product :=
  mkProduct v (block_id v) (block_asin v)
            EmptyString EmptyString EmptyString EmptyString [EmptyString]
            EmptyString [EmptyString] EmptyString EmptyString EmptyString
            [EmptyString].

(** A parsed row has zero reviews when the composite pattern captured no
    text for its reviews (group 13), or did not match at all. *)
Definition zero_reviews (r : Product) : Prop :=
  regexp_extract (value r) regex 13 = EmptyString.

(* --------------------------------------------------------------------- *)
(** ** Python results *)
(* --------------------------------------------------------------------- *)

Inductive exception : Type :=
| IndexError                 (* [collect()[0]] on a DataFrame without rows *)
| ParseException             (* SQL text that is not an expression *)
| AnalysisException          (* an expression that does not fit the columns *)
| IllegalArgumentException.  (* a [require] of GraphFrames that fails *)

(** A notebook cell either produces its value or raises. *)
Inductive py (A : Type) : Type :=
| Return (a : A)
| Raise (e : exception).

Arguments Return {A} a.
Arguments Raise {A} e.

Definition bind {A B : Type} (m : py A) (f : A -> py B) : py B :=
  match m with
  | Return a => f a
  | Raise e => Raise e
  end.

Notation "x <- m ;; f" := (bind m (fun x => f))
  (at level 61, m at next level, right associativity).

(** [df.collect()[0]]. *)
Definition collect_0 {A : Type} (df : list A) : py A :=
  match df with
  | r :: _ => Return r
  | [] => Raise IndexError
  end.

(* --------------------------------------------------------------------- *)
(** ** Q1: percentages of each rating digit *)
(* --------------------------------------------------------------------- *)

(** [rating:\s+(\d+)]. *)
Definition rating_regex : Pattern :=
  seq [Str "rating:"; Plus Space; Group 1 (Plus Digit)].

(** [node_metadata_df.filter(F.col("id") == P)]; the notebook's [P] is
    ["21"]. *)
Definition product_21_df (node_metadata_df : list Product) (P : string)
  : list Product :=
  filter (fun r => String.eqb (id r) P) node_metadata_df.

(** [select(F.explode("reviews").alias("review"))]: one row per element of
    each [reviews] array. *)
Definition explode_reviews (df : list Product) : list string :=
  flat_map reviews df.

(** A row of [product_21_reviews_df]. *)
Record Review : Type := mkReview {
  review : string;
  review_rating : string
}.

Definition product_21_reviews_df (node_metadata_df : list Product)
    (P : string) : list Review :=
  map (fun rv => mkReview rv (regexp_extract rv rating_regex 1))
      (explode_reviews (product_21_df node_metadata_df P)).

(** A row of [rating_counts_df]. *)
Record RatingCount : Type := mkRatingCount {
  rating : string;
  count : Z
}.

(** One more row with key [k] reaches the aggregation: its group's count
    goes up, or a group is opened for it. *)
Fixpoint bump (k : string) (groups : list RatingCount) : list RatingCount :=
  match groups with
  | [] => [mkRatingCount k 1]
  | g :: groups' =>
      if String.eqb (rating g) k
      then mkRatingCount k (count g + 1) :: groups'
      else g :: bump k groups'
  end.

(** [groupBy("rating").count()]. *)
Definition groupBy_count (keys : list string) : list RatingCount :=
  fold_right bump [] keys.

Definition rating_counts_df (node_metadata_df : list Product) (P : string)
  : list RatingCount :=
  groupBy_count (map review_rating (product_21_reviews_df node_metadata_df P)).

(** [agg(F.sum("count"))]: always one row; the sum of no rows is NULL. *)
Definition agg_sum (df : list RatingCount) : list (option Z) :=
  match df with
  | [] => [None]
  | _ :: _ => [Some (fold_right Z.add 0 (map count df))]
  end.

(** [rating_counts_df.agg(F.sum("count")).collect()[0][0]]. *)
Definition total_ratings (node_metadata_df : list Product) (P : string)
  : py (option Z) :=
  collect_0 (agg_sum (rating_counts_df node_metadata_df P)).

(** A row of [rating_percentages_df]. *)
Record RatingPercentage : Type := mkRatingPercentage {
  pct_rating : string;
  pct_count : Z;
  percentage : option Q
}.

(** [F.col("count") / total]: a fractional division, NULL when the divisor
    is NULL or zero. *)
Definition sql_div (a : Z) (b : option Z) : option Q :=
  match b with
  | None => None
  | Some t => if t =? 0 then None else Some (inject_Z a / inject_Z t)%Q
  end.

(** [(F.col("count") / total_ratings) * 100]. *)
Definition percentage_of (c : Z) (total : option Z) : option Q :=
  option_map (fun q => (q * 100)%Q) (sql_div c total).

(** Insertion into a list sorted by rating, largest first. *)
Fixpoint insert_desc (x : RatingPercentage) (l : list RatingPercentage)
  : list RatingPercentage :=
  match l with
  | [] => [x]
  | y :: l' =>
      if String.leb (pct_rating y) (pct_rating x)
      then x :: y :: l'
      else y :: insert_desc x l'
  end.

(** [orderBy(F.col("rating").desc())]; [rating] is a string column. *)
Definition orderBy_rating_desc (df : list RatingPercentage)
  : list RatingPercentage :=
  fold_right insert_desc [] df.

(** The cell of Q1, for product id [P]: the spec's [ratingHistogram]. *)
Definition rating_percentages_df (node_metadata_df : list Product)
    (P : string) : py (list RatingPercentage) :=
  total <- total_ratings node_metadata_df P ;;
  Return
    (orderBy_rating_desc
       (map (fun g =>
               mkRatingPercentage (rating g) (count g)
                                  (percentage_of (count g) total))
            (rating_counts_df node_metadata_df P))).

(** The percentages of a result, with NULL read as absent. *)
Fixpoint percentages (df : list RatingPercentage) : option (list Q) :=
  match df with
  | [] => Some []
  | r :: df' =>
      match percentage r, percentages df' with
      | Some q, Some qs => Some (q :: qs)
      | _, _ => None
      end
  end.

Definition Qsum (qs : list Q) : Q := fold_right Qplus 0%Q qs.

(** The sum of the [count] column. *)
Definition sum_counts (df : list RatingCount) : Z :=
  fold_right Z.add 0 (map count df).

(** The value of a percentage, NULL read as zero. *)
Definition pct_value (r : RatingPercentage) : Q :=
  match percentage r with
  | Some q => q
  | None => 0%Q
  end.

(** A row of [rating_counts_df] with its percentage column. *)
Definition with_percentage (total : option Z) (g : RatingCount)
  : RatingPercentage :=
  mkRatingPercentage (rating g) (count g) (percentage_of (count g) total).

(* --------------------------------------------------------------------- *)
(** ** The session: what the framework does outside the modelled text *)
(* --------------------------------------------------------------------- *)

(** The notebook hands text to three parsers of the framework: the CSV
    tokenizer of the reader, [Integer.parseInt] behind an [IntegerType]
    column, and the SQL parser behind a filter written as a string.  Each
    is modelled below on the text the data sets are made of.  What each
    does with other text is not fixed here: it is a field of the session,
    which every definition that may need it takes as its first argument,
    so that what is proved holds whatever the framework does there. *)
Record SparkSession : Type := mkSparkSession {
  (** the fields the tokenizer makes of a line that has a double quote or
      a backslash (the default [quote] and [escape] characters) *)
  quoted_fields : text -> list text;
  (** [Integer.parseInt] on a field with a character outside ASCII, where
      digits of other scripts count; [None] stands for
      [NumberFormatException] *)
  parseInt_unicode : text -> option Z;
  (** the filter that a SQL text stands for, or the exception it raises,
      for the texts described at [sql_literal] below *)
  sql_filter : string -> py (Product -> bool)
}.

(* --------------------------------------------------------------------- *)
(** ** Reading edge data (the CSV reader with [conn_schema]) *)
(* --------------------------------------------------------------------- *)

(** The reader is used with [delimiter] a tab, [comment] the character [#],
    the schema [conn_schema] and the default mode, PERMISSIVE: a record
    that does not fit the schema is kept, with NULL in the fields that are
    missing or cannot be converted.  The [quote] and [escape] options
    are left at their defaults, the double quote and the backslash. *)

Definition TAB : ascii := "009"%char.
Definition HASH : ascii := "#"%char.
Definition DQUOTE : ascii := "034"%char.
Definition BACKSLASH : ascii := "092"%char.

(** The lines of a file; LF, CR and CR LF each end a line, and the end of
    the file ends a last line that is not empty.  [cur] is the line being
    read, in reverse. *)
Fixpoint lines_from (cur : text) (s : text) : list text :=
  match s with
  | [] =>
      match cur with
      | [] => []
      | _ :: _ => [rev cur]
      end
  | c :: s' =>
      if Ascii.eqb c LF then rev cur :: lines_from [] s'
      else if Ascii.eqb c CR then
        match s' with
        | c' :: s'' =>
            if Ascii.eqb c' LF then rev cur :: lines_from [] s''
            else rev cur :: lines_from [] s'
        | [] => rev cur :: lines_from [] s'
        end
      else lines_from (c :: cur) s'
  end.

Definition file_lines (file : string) : list text :=
  lines_from [] (list_ascii_of_string file).

(** [line.trim.isEmpty]: only characters up to the space. *)
Definition is_blank (line : text) : bool :=
  forallb (fun c => (code c <=? 32)%N) line.

(** [line.startsWith("#")]. *)
Definition is_comment (line : text) : bool :=
  match line with
  | c :: _ => Ascii.eqb c HASH
  | [] => false
  end.

(** Blank lines and comment lines are skipped before parsing. *)
Definition kept_line (line : text) : bool :=
  (negb (is_blank line) && negb (is_comment line))%bool.

(** The fields of a line, between tabs. *)
Fixpoint fields_from (cur : text) (s : text) : list text :=
  match s with
  | [] => [rev cur]
  | c :: s' =>
      if Ascii.eqb c TAB then rev cur :: fields_from [] s'
      else fields_from (c :: cur) s'
  end.

Definition fields (line : text) : list text := fields_from [] line.

(** The line has a quote or an escape character. *)
Definition has_quoting (line : text) : bool :=
  existsb (fun c => (Ascii.eqb c DQUOTE || Ascii.eqb c BACKSLASH)%bool) line.

(** [tokenizer.parseLine]: without quoting, the fields between the tabs as
    they stand (white space is kept); with quoting, what the session makes
    of the line. *)
Definition parseLine (spark : SparkSession) (line : text) : list text :=
  if has_quoting line then quoted_fields spark line else fields line.

(** The value of a run of decimal digits, after [acc]. *)
Fixpoint digits_value (acc : Z) (s : text) : option Z :=
  match s with
  | [] => Some acc
  | c :: s' =>
      if is_digit c
      then digits_value (10 * acc + (Z.of_N (code c) - 48)) s'
      else None
  end.

Definition int_min : Z := - 2147483648.
Definition int_max : Z := 2147483647.

Definition in_int_range (n : Z) : option Z :=
  if ((int_min <=? n) && (n <=? int_max))%bool then Some n else None.

Definition unsigned_digits (s : text) : option Z :=
  match s with
  | [] => None
  | _ :: _ => digits_value 0 s
  end.

(** A decimal integer in ASCII: an optional sign, then at least one digit,
    and a value that fits 32 bits. *)
Definition decimal_int (s : text) : option Z :=
  match s with
  | [] => None
  | c :: s' =>
      if Ascii.eqb c "-"%char then
        match unsigned_digits s' with
        | Some n => in_int_range (- n)
        | None => None
        end
      else if Ascii.eqb c "+"%char then
        match unsigned_digits s' with
        | Some n => in_int_range n
        | None => None
        end
      else
        match unsigned_digits s with
        | Some n => in_int_range n
        | None => None
        end
  end.

Definition is_ascii (c : ascii) : bool := (code c <? 128)%N.

(** [Integer.parseInt], which the converter of an [IntegerType] column
    calls: on ASCII text a decimal integer; on other text what the session
    makes of it, a Java [int] in any case.  [None] stands for
    [NumberFormatException]. *)
Definition parseInt (spark : SparkSession) (s : text) : option Z :=
  if forallb is_ascii s then decimal_int s
  else
    match parseInt_unicode spark s with
    | Some n => in_int_range n
    | None => None
    end.

(** The converter of a nullable [IntegerType] column: a missing or empty
    field is NULL, and so is, in PERMISSIVE mode, a field that is not an
    integer. *)
Definition integer_field (spark : SparkSession) (tokens : list text)
    (i : nat) : IntegerType :=
  match nth_error tokens i with
  | None => None
  | Some [] => None
  | Some (c :: t) => parseInt spark (c :: t)
  end.

(** The row of a line: the first two fields; further fields are dropped. *)
Definition row_of_line (spark : SparkSession) (line : text) : Edge :=
  let tokens := parseLine spark line in
  mkEdge (integer_field spark tokens 0) (integer_field spark tokens 1).


(** [spark.read.format("csv").option("delimiter", "\t")
    .option("comment", "#").schema(conn_schema).load(path)]. *)
Definition load (spark : SparkSession) (file : string) : list Edge :=
  map (row_of_line spark) (filter kept_line (file_lines file)).

Definition early_march_df := load.
Definition late_march_df := load.
Definition may_df := load.
Definition june_df := load.

(** Lines joined and ended with LF. *)
Definition lf_lines (ls : list string) : string :=
  String.concat EmptyString (map (fun l => (l ++ String LF EmptyString)%string) ls).

Definition tabbed (a b : string) : string :=
  (a ++ String TAB b)%string.


(* --------------------------------------------------------------------- *)
(** ** Q3: the graph and its breadth-first search *)
(* --------------------------------------------------------------------- *)

(** The [id] column is a string and the edge columns are integers; where
    the two are compared the string is cast to INT.  An id is a run of
    digits: its cast is its value when that fits 32 bits, NULL otherwise. *)
Definition cast_int (s : string) : IntegerType :=
  decimal_int (list_ascii_of_string s).

(** [edges = june_df.selectExpr("FromNodeId as src", "ToNodeId as dst")]. *)
Definition src (ed : Edge) : IntegerType := FromNodeId ed.
Definition dst (ed : Edge) : IntegerType := ToNodeId ed.

(** [GraphFrame(node_metadata_df, edges)]. *)
Record GraphFrame : Type := mkGraphFrame {
  vertices : list Product;
  edges : list Edge
}.

(** A row of the motif [(a)-[e]->(b)]. *)
Record Motif : Type := mkMotif {
  motif_a : Product;
  motif_e : Edge;
  motif_b : Product
}.

(** [v.id = n] for a vertex [v] and an integer [n]. *)
Definition id_is (v : Product) (n : IntegerType) : bool :=
  sql_holds (sql_eq (cast_int (id v)) n).

(** [g.find("(a)-[e]->(b)")]: every edge joined with the vertices at its
    source and at its destination. *)
Definition find_a_e_b (g : GraphFrame) : list Motif :=
  flat_map (fun ed =>
    flat_map (fun va =>
      map (fun vb => mkMotif va ed vb)
          (filter (fun vb => id_is vb (dst ed)) (vertices g)))
      (filter (fun va => id_is va (src ed)) (vertices g)))
    (edges g).

(** A row of the search: the columns [from], [e0], [v1], [e1], [v2], ...;
    the last vertex is the column renamed [to] in the result. *)
Record Path : Type := mkPath {
  from : Product;
  hops : list (Edge * Product)
}.

Definition end_vertex (p : Path) : Product :=
  last (map snd (hops p)) (from p).

(** The ids of [from], [v1], [v2], ... in that order. *)
Definition path_ids (p : Path) : list string :=
  id (from p) :: map (fun h => id (snd h)) (hops p).

(** Iteration 0: the motif rows that start at a [from] vertex, without
    self-loops. *)
Definition first_paths (a2b : list Motif) (fromExpr : Product -> bool)
  : list Path :=
  map (fun m => mkPath (motif_a m) [(motif_e m, motif_b m)])
      (filter (fun m => negb (String.eqb (id (motif_a m)) (id (motif_b m))))
              (filter (fun m => fromExpr (motif_a m)) a2b)).

(** The last vertex column is dropped and the one of the joined row is
    kept in its place. *)
Fixpoint set_last (hs : list (Edge * Product)) (v : Product)
  : list (Edge * Product) :=
  match hs with
  | [] => []
  | [(ed, _)] => [(ed, v)]
  | h :: hs' => h :: set_last hs' v
  end.

Definition extend (p : Path) (m : Motif) : Path :=
  mkPath (from p)
         (set_last (hops p) (motif_a m) ++ [(motif_e m, motif_b m)]).

(** [paths.join(nextLinks, paths(prev.id) === nextLinks(prev.id))
    .drop(paths(prev))]. *)
Definition join_next (a2b : list Motif) (paths : list Path) : list Path :=
  flat_map (fun p =>
    map (extend p)
        (filter (fun m => String.eqb (id (end_vertex p)) (id (motif_a m)))
                a2b))
    paths.

(** No backtracking within a path: the id of the new vertex differs from
    the ids of [from] and of every earlier vertex. *)
Definition previousVertexChecks (p : Path) : bool :=
  forallb (fun i => negb (String.eqb i (id (end_vertex p))))
          (removelast (path_ids p)).

(** One more step from the paths of iteration [iter]. *)
Definition next_paths (a2b : list Motif) (fromExpr : Product -> bool)
    (iter : nat) (paths : list Path) : list Path :=
  match iter with
  | O => first_paths a2b fromExpr
  | S _ => filter previousVertexChecks (join_next a2b paths)
  end.

(** [while (iter < maxPathLength && !foundPath)], with [remaining] the
    iterations left; the empty DataFrame when no path is found. *)
Fixpoint bfs_loop (a2b : list Motif) (fromExpr toExpr : Product -> bool)
    (remaining iter : nat) (paths : list Path) : list Path :=
  match remaining with
  | O => []
  | S remaining' =>
      let paths' := next_paths a2b fromExpr iter paths in
      match filter (fun p => toExpr (end_vertex p)) paths' with
      | [] => bfs_loop a2b fromExpr toExpr remaining' (S iter) paths'
      | foundPathDF => foundPathDF
      end
  end.

(** [BFS.run] of GraphFrames, for a bound that is not negative. *)
Definition bfs_run (g : GraphFrame) (fromExpr toExpr : Product -> bool)
    (maxPathLength : Z) : list Path :=
  let fromDF := filter fromExpr (vertices g) in
  let toDF := filter toExpr (vertices g) in
  match fromDF, toDF with
  | [], _ => []
  | _, [] => []
  | _ :: _, _ :: _ =>
      match filter toExpr fromDF with
      | [] =>
          bfs_loop (find_a_e_b g) fromExpr toExpr
                   (Z.to_nat maxPathLength) 0 []
      | fromEqualsToDF => map (fun v => mkPath v []) fromEqualsToDF
      end
  end.

(** [g.bfs(fromExpr, toExpr, maxPathLength)], once the two expressions
    are parsed: [require(maxPathLength >= 0)], then the search. *)
Definition bfs (g : GraphFrame) (fromExpr toExpr : Product -> bool)
    (maxPathLength : Z) : py (list Path) :=
  if maxPathLength <? 0 then Raise IllegalArgumentException
  else Return (bfs_run g fromExpr toExpr maxPathLength).

(** [df.limit(n)]. *)
Definition limit {A : Type} (n : nat) (df : list A) : list A := firstn n df.

(** *** The filters of the search cells *)

(** The filters are SQL text into which Python pastes the title, the id
    and the group of the start product; a title and a group go between
    single quotes.  What the parser reads depends on the pasted string. *)
Definition QUOTE : ascii := "039"%char.

Definition is_letter (c : ascii) : bool :=
  (in_range 97 122 c || in_range 65 90 c)%bool.

Inductive sql_literal : Type :=
| Literal      (* the quotes enclose one string literal: the pasted string *)
| Unbalanced   (* a quote of the text is left without its pair *)
| OtherText.   (* anything else: escapes, further literals, comments, ... *)

(** A pasted string without quote, backslash and dollar sign is the value
    of the literal.  With an odd number of quotes, and letters, digits and
    spaces besides, the quotes of the text pair up from the left and the
    last one stays open, whatever stands between.  Any other string
    (a backslash starts an escape, two quotes close one literal and open
    another, [--] starts a comment, [${...}] is a variable that is
    substituted before parsing) is left to the session. *)
Definition pasted (s : string) : sql_literal :=
  let cs := list_ascii_of_string s in
  if forallb (fun c => negb (Ascii.eqb c QUOTE || Ascii.eqb c BACKSLASH
                             || Ascii.eqb c "$")) cs
  then Literal
  else if (forallb (fun c => Ascii.eqb c QUOTE || is_letter c || is_digit c
                             || Ascii.eqb c " ") cs
           && Nat.odd (count_occ ascii_dec cs QUOTE))%bool
  then Unbalanced
  else OtherText.

(** [title = 'lit']: the title column against a string literal. *)
Definition title_is (lit : string) (v : Product) : bool :=
  String.eqb (title v) lit.

(** [f"title = '{start_title}'"], parsed. *)
Definition title_filter (spark : SparkSession) (start_title : string)
  : py (Product -> bool) :=
  match pasted start_title with
  | Literal => Return (title_is start_title)
  | Unbalanced => Raise ParseException
  | OtherText =>
      sql_filter spark ("title = '" ++ start_title ++ "'")
  end.

(** An integer literal of type INT: decimal digits, at least one, with a
    value that fits 32 bits. *)
Definition int_literal (s : string) : bool :=
  match unsigned_digits (list_ascii_of_string s) with
  | Some n => n <=? int_max
  | None => false
  end.

(** [id = n]: the id column, cast to INT, against an integer literal. *)
Definition id_is_literal (n : string) (v : Product) : bool :=
  id_is v (cast_int n).

(** [f"id = {start_node_id}"], parsed. *)
Definition id_filter (spark : SparkSession) (start_node_id : string)
  : py (Product -> bool) :=
  if int_literal start_node_id then Return (id_is_literal start_node_id)
  else sql_filter spark ("id = " ++ start_node_id).

(** [group != 'lit' AND group != '']. *)
Definition group_differs (lit : string) (v : Product) : bool :=
  (negb (String.eqb (group v) lit)
   && negb (String.eqb (group v) EmptyString))%bool.

(** [f"group != '{start_node_group}' AND group != ''"], parsed. *)
Definition group_filter (spark : SparkSession) (start_node_group : string)
  : py (Product -> bool) :=
  match pasted start_node_group with
  | Literal => Return (group_differs start_node_group)
  | Unbalanced => Raise ParseException
  | OtherText =>
      sql_filter spark
        ("group != '" ++ start_node_group ++ "' AND group != ''")
  end.

(** A search cell, for a start title and a bound: the spec's
    [firstDivergentCategoryPath].  The empty result is "not found". *)
Definition paths (spark : SparkSession)
    (node_metadata_df : list Product) (june_df : list Edge)
    (start_title : string) (maxPathLength : Z) : py (list Path) :=
  let g := mkGraphFrame node_metadata_df june_df in
  title_expr <- title_filter spark start_title ;;
  let start_node := filter title_expr (vertices g) in
  start_node_group <- collect_0 (map group start_node) ;;
  start_node_id <- collect_0 (map id start_node) ;;
  fromExpr <- id_filter spark start_node_id ;;
  toExpr <- group_filter spark start_node_group ;;
  rows <- bfs g fromExpr toExpr maxPathLength ;;
  Return (limit 1 rows).

(** [is_path a2b u hs]: from [u], every hop of [hs] is a row of the motif
    table [a2b]. *)
Fixpoint is_path (a2b : list Motif) (u : Product)
    (hs : list (Edge * Product)) : Prop :=
  match hs with
  | [] => True
  | (ed, v) :: hs' => In (mkMotif u ed v) a2b /\ is_path a2b v hs'
  end.

Definition hop_ids (hs : list (Edge * Product)) : list string :=
  map (fun h => id (snd h)) hs.

Definition end_of (u : Product) (hs : list (Edge * Product)) : Product :=
  last (map snd hs) u.

(** A walk of the graph that starts at a [from] vertex; vertices may
    repeat. *)
Definition walk (g : GraphFrame) (fromExpr : Product -> bool) (p : Path)
  : Prop :=
  In (from p) (vertices g) /\ fromExpr (from p) = true /\
  is_path (find_a_e_b g) (from p) (hops p).


(** The walks of [k] hops on which no id repeats. *)
Definition level (g : GraphFrame) (fromExpr : Product -> bool) (k : nat)
    (p : Path) : Prop :=
  walk g fromExpr p /\ List.length (hops p) = k /\ NoDup (path_ids p).

(** The number of hops of a path. *)
Definition path_length (p : Path) : Z := Z.of_nat (List.length (hops p)).

(** The walks of [level k] that end at a [to] vertex. *)
Definition goal (g : GraphFrame) (fromExpr toExpr : Product -> bool)
    (k : nat) (p : Path) : Prop :=
  level g fromExpr k p /\ toExpr (end_vertex p) = true.

(** *** What the search is to find *)





(* --------------------------------------------------------------------- *)
(** ** Rows that can take part in a join *)
(* --------------------------------------------------------------------- *)

(** Both node ids of the row are present. *)
Definition complete (e : Edge) : bool :=
  match FromNodeId e, ToNodeId e with
  | Some _, Some _ => true
  | _, _ => false
  end.

(** Both ends of the edge are the id of some vertex row. *)
Definition usable (vs : list Product) (e : Edge) : bool :=
  (existsb (fun v => id_is v (src e)) vs
   && existsb (fun v => id_is v (dst e)) vs)%bool.

(* --------------------------------------------------------------------- *)
(** ** Q1: the ratings behind the groups *)
(* --------------------------------------------------------------------- *)

(** The ratings extracted from the exploded reviews of product [P], one per
    review. *)
Definition ratings_of (node_metadata_df : list Product) (P : string)
  : list string :=
  map review_rating (product_21_reviews_df node_metadata_df P).

(** The count of the group of key [k]; zero when there is no such group. *)
Fixpoint lookup_count (k : string) (groups : list RatingCount) : Z :=
  match groups with
  | [] => 0
  | g :: groups' =>
      if String.eqb (rating g) k then count g else lookup_count k groups'
  end.

(** [a] comes before [b] in descending order of the [rating] strings. *)
Definition rating_desc (a b : RatingPercentage) : Prop :=
  String.leb (pct_rating b) (pct_rating a) = true.

(* --------------------------------------------------------------------- *)
(** ** What a match of a pattern is *)
(* --------------------------------------------------------------------- *)

(** [run k s s']: [s'] is what is left of [s] after some characters of
    class [k]. *)
Inductive run (k : cls) : text -> text -> Prop :=
| run_stop (s : text) : run k s s
| run_step (x : ascii) (s s' : text) :
    cls_matches k x = true -> run k s s' -> run k (x :: s) s'.

(** [matches r s c s' c']: the pattern [r] matches a prefix of [s] and
    leaves [s']; the groups of [r] are added to [c], which gives [c']. *)
Inductive matches : Pattern -> text -> captures -> text -> captures -> Prop :=
| m_eps (s : text) (c : captures) : matches Eps s c s c
| m_str (t : string) (s s' : text) (c : captures) :
    strip_prefix (list_ascii_of_string t) s = Some s' ->
    matches (Str t) s c s' c
| m_atom (k : cls) (x : ascii) (s : text) (c : captures) :
    cls_matches k x = true -> matches (Atom k) (x :: s) c s c
| m_star (k : cls) (s s' : text) (c : captures) :
    run k s s' -> matches (Star k) s c s' c
| m_plus (k : cls) (x : ascii) (s s' : text) (c : captures) :
    cls_matches k x = true -> run k s s' -> matches (Plus k) (x :: s) c s' c
| m_lazy (k : cls) (s s' : text) (c : captures) :
    run k s s' -> matches (LazyStar k) s c s' c
| m_seq (r1 r2 : Pattern) (s s1 s2 : text) (c c1 c2 : captures) :
    matches r1 s c s1 c1 -> matches r2 s1 c1 s2 c2 ->
    matches (Seq r1 r2) s c s2 c2
| m_group (n : nat) (r : Pattern) (s s' : text) (c c' : captures) :
    matches r s c s' c' ->
    matches (Group n r) s c s' ((n, consumed s s') :: c').

(** Every character of the string satisfies [p]. *)
Definition all_chars (p : ascii -> bool) (s : string) : bool :=
  forallb p (list_ascii_of_string s).

(** A run of at least one character, all of which satisfy [p]. *)
Definition some_chars (p : ascii -> bool) (s : string) : Prop :=
  s <> EmptyString /\ all_chars p s = true.

(** The pattern has no capturing group. *)
Fixpoint groupless (r : Pattern) : bool :=
  match r with
  | Seq r1 r2 => (groupless r1 && groupless r2)%bool
  | Group _ _ => false
  | _ => true
  end.

(** Every match of the pattern takes at least one character. *)
Fixpoint takes_some (r : Pattern) : bool :=
  match r with
  | Str t => negb (String.eqb t EmptyString)
  | Atom _ => true
  | Plus _ => true
  | Seq r1 r2 => (takes_some r1 || takes_some r2)%bool
  | Group _ r1 => takes_some r1
  | _ => false
  end.

(** The text [p] occurs somewhere in [s]. *)
Definition occurs (p s : text) : Prop :=
  exists a b, s = a ++ p ++ b.

(* --------------------------------------------------------------------- *)
(** ** Edge files as they are written *)
(* --------------------------------------------------------------------- *)

(** The decimal notation of a natural number. *)
Definition decimal (n : N) : string :=
  DecimalString.NilEmpty.string_of_uint (N.to_uint n).

(** The line of an edge: the two node ids in decimal, a tab between. *)
Definition edge_line (e : N * N) : string :=
  tabbed (decimal (fst e)) (decimal (snd e)).

(** A comment line: the marker, then any text. *)
Definition comment_line (c : string) : string := String HASH c.

(** The text has no line break. *)
Definition one_line (s : string) : bool :=
  forallb (fun c => negb (Ascii.eqb c LF || Ascii.eqb c CR))
          (list_ascii_of_string s).

(** An edge file: comment lines at the head, then one line per edge, each
    line ended by LF. *)
Definition edge_file (comments : list string) (es : list (N * N)) : string :=
  lf_lines (map comment_line comments ++ map edge_line es).

(** The row of an edge between two natural numbers. *)
Definition edge_of (e : N * N) : Edge :=
  edge (Z.of_N (fst e)) (Z.of_N (snd e)).

(** Lines joined and ended with CR LF. *)
Definition crlf_ended (ls : list string) : string :=
  String.concat EmptyString (map (fun l => (l ++ CRLF)%string) ls).

(* --------------------------------------------------------------------- *)
(** ** Sample inputs *)
(* --------------------------------------------------------------------- *)

(** The head of the dataset: a discontinued product has an id and an ASIN
    and nothing else. *)
Definition block_0 : string := crlf_lines [
  "Id:   0";
  "ASIN: 0771044445";
  "  discontinued product"]%string.

(** A product with six reviews rated 5, 4, 5, 3, 4, 5. *)
Definition block_21 : string := crlf_lines [
  "Id:   21";
  "ASIN: B00000AU3R";
  "  title: Batik";
  "  group: Music";
  "  salesrank: 5392";
  "  similar: 2  B000002MY3  B000002HU5";
  "  categories: 1";
  "   |Music[5174]|Styles[301668]|Jazz[34]|General[63926]";
  "  reviews: total: 6  downloaded: 6  avg rating: 4.5";
  "    2001-12-16  cutomer: A11NCO6YTE4BTJ  rating: 5  votes:   5  helpful:   4";
  "    2002-1-7  cutomer:  A9CQ3PLRNIR83  rating: 4  votes:   5  helpful:   5";
  "    2002-1-24  cutomer: A13SG9ACZ9O5IM  rating: 5  votes:   8  helpful:   8";
  "    2002-1-28  cutomer: A1BDAI6VEYMAZA  rating: 3  votes:   4  helpful:   4";
  "    2002-2-6  cutomer: A2P6KAWXJ16234  rating: 4  votes:  16  helpful:  14";
  "    2002-2-14  cutomer:  AMACWC3M7PQFR  rating: 5  votes:   5  helpful:   5"
  ]%string.

(** A product whose review list is empty; the line after the totals is
    blank. *)
Definition block_30 : string := crlf_lines [
  "Id:   30";
  "ASIN: 0231118597";
  "  title: Losing Matt Shepard";
  "  group: Book";
  "  salesrank: 277409";
  "  similar: 0";
  "  categories: 1";
  "   |Books[283155]|Subjects[1000]|Nonfiction[53]|Crime & Criminals[11003]";
  "  reviews: total: 0  downloaded: 0  avg rating: 0";
  "  "]%string.

Definition blocks_file (blocks : list string) : string :=
  String.concat (CRLF ++ CRLF) blocks.

(** A metadata file of three blocks. *)
Definition meta_example : string :=
  blocks_file [block_0; block_21; block_30].

(** A metadata file in which the block of product 21 occurs twice. *)
Definition meta_duplicate : string :=
  blocks_file [block_21; block_0; block_21].

(** A vertex row with an id, a title and a group. *)
Definition product (i t g : string) : Product :=
  mkProduct EmptyString i EmptyString t g EmptyString EmptyString []
            EmptyString [] EmptyString EmptyString EmptyString [].

(** Four products in a chain 1 -> 2 -> 3 -> 4 with a way back 2 -> 1; the
    first three are books and the fourth a DVD, three edges away. *)
Definition chain_vertices : list Product :=
  [product "1" "A" "Book"; product "2" "B" "Book";
   product "3" "C" "Book"; product "4" "D" "DVD"]%string.

Definition chain_edges : list Edge :=
  [edge 1 2; edge 2 1; edge 2 3; edge 3 4].






(** Two ways of the same length from product 1 to the DVD, product 4:
    over product 2 and over product 3. *)
Definition diamond_vertices : list Product :=
  [product "1" "A" "Book"; product "2" "B" "Book";
   product "3" "C" "Book"; product "4" "D" "DVD"]%string.

Definition diamond_edges : list Edge :=
  [edge 1 2; edge 1 3; edge 2 4; edge 3 4].

(** A session for the examples: it takes no line apart and parses no
    text; none of the examples asks it to. *)
Definition session : SparkSession :=
  mkSparkSession (fun line => [line]) (fun _ => None)
                 (fun _ => Raise ParseException).

(* ===================================================================== *)
(** * Part II: theorems *)
(* ===================================================================== *)

(* --------------------------------------------------------------------- *)
(** ** The self-join and the intersection *)
(* --------------------------------------------------------------------- *)

Lemma Edge_eqb_eq (x y : Edge) : Edge_eqb x y = true <-> x = y.
Proof.
  unfold Edge_eqb. destruct (Edge_eq_dec x y); split; congruence.
Qed.

Lemma in_distinct (r : Edge) (rows : list Edge) :
  In r (distinct rows) <-> In r rows.
Proof. unfold distinct. apply nodup_In. Qed.

Lemma in_intersect (r : Edge) (a b : list Edge) :
  In r (intersect a b) <-> In r a /\ In r b.
Proof.
  unfold intersect. rewrite in_distinct, filter_In, existsb_exists.
  split.
  - intros [Ha [y [Hy Heq]]]. apply Edge_eqb_eq in Heq. subst y. auto.
  - intros [Ha Hb]. split; [assumption|].
    exists r. split; [assumption|]. now apply Edge_eqb_eq.
Qed.

Lemma swapped_on_holds (e1 e2 : Edge) :
  sql_holds (swapped_on e1 e2) = true <->
  exists u v, e1 = edge u v /\ e2 = edge v u.
Proof.
  split.
  - destruct e1 as [[a|] [b|]], e2 as [[c|] [d|]];
      unfold swapped_on; cbn;
      repeat match goal with
             | |- context [?x =? ?y] => destruct (Z.eqb_spec x y)
             end; cbn; try discriminate.
    intros _. subst. now exists d, c.
  - intros (u & v & -> & ->). unfold swapped_on. cbn.
    now rewrite !Z.eqb_refl.
Qed.

Lemma in_self_join (t : list Edge) (e1 e2 : Edge) :
  In (e1, e2) (self_join t) <->
  In e1 t /\ In e2 t /\ sql_holds (swapped_on e1 e2) = true.
Proof.
  unfold self_join. rewrite in_flat_map. split.
  - intros (x & Hx & H). apply in_flat_map in H. destruct H as (y & Hy & H).
    destruct (sql_holds (swapped_on x y)) eqn:E; [|contradiction].
    destruct H as [H|[]]. inversion H; subst. auto.
  - intros (H1 & H2 & H). exists e1. split; [assumption|].
    apply in_flat_map. exists e2. split; [assumption|].
    rewrite H. now left.
Qed.

(** A row of the per-snapshot query is a pair of present ids whose two
    directed edges are rows of the snapshot. *)
Lemma in_bidirectional_edges (t : list Edge) (r : Edge) :
  In r (bidirectional_edges t) <->
  exists u v, r = edge u v /\ In (edge u v) t /\ In (edge v u) t.
Proof.
  unfold bidirectional_edges. rewrite in_distinct, in_map_iff. split.
  - intros ([e1 e2] & Hr & Hin). apply in_self_join in Hin.
    destruct Hin as (H1 & H2 & H). apply swapped_on_holds in H.
    destruct H as (u & v & -> & ->). cbn in Hr. subst r.
    exists u, v. auto.
  - intros (u & v & -> & H1 & H2). exists (edge u v, edge v u). split.
    + reflexivity.
    + apply in_self_join. repeat split; try assumption.
      apply swapped_on_holds. now exists u, v.
Qed.

Lemma NoDup_intersect (a b : list Edge) : NoDup (intersect a b).
Proof. unfold intersect, distinct. apply NoDup_nodup. Qed.

(** Membership in the final result, for all four snapshots at once. *)
Lemma in_consistent_bidirectional_edges
    (em lm may june : list Edge) (r : Edge) :
  In r (consistent_bidirectional_edges em lm may june) <->
  exists u v, r = edge u v /\
    forall t, In t [em; lm; may; june] ->
              In (edge u v) t /\ In (edge v u) t.
Proof.
  unfold consistent_bidirectional_edges, bidirectional_edges_early_march,
    bidirectional_edges_late_march, bidirectional_edges_may,
    bidirectional_edges_june.
  rewrite !in_intersect, !in_bidirectional_edges. split.
  - intros [[[(u & v & -> & H1) H2] H3] H4].
    destruct H2 as (u2 & v2 & E2 & H2).
    destruct H3 as (u3 & v3 & E3 & H3).
    destruct H4 as (u4 & v4 & E4 & H4).
    inversion E2; inversion E3; inversion E4; subst.
    exists u4, v4. split; [reflexivity|].
    intros t [<-|[<-|[<-|[<-|[]]]]]; assumption.
  - intros (u & v & -> & H).
    repeat split; exists u, v; (split; [reflexivity|]);
      apply H; cbn; auto.
Qed.

(** C1: the rows of [consistent_bidirectional_edges] are exactly the pairs
    of node ids [(u, v)] for which both directed edges [u -> v] and
    [v -> u] are rows of each of the four snapshots, each such pair once;
    on four synthetic snapshots where (1,2) is bidirectional everywhere and
    (3,4) in three of them, (1,2) is a row and (3,4) is not. *)
Theorem consistent_bidirectional_edges_spec :
  (forall (em lm may june : list Edge) (r : Edge),
      In r (consistent_bidirectional_edges em lm may june) <->
      exists u v, r = edge u v /\
        forall t, In t [em; lm; may; june] ->
                  In (edge u v) t /\ In (edge v u) t) /\
  (forall em lm may june : list Edge,
      NoDup (consistent_bidirectional_edges em lm may june)) /\
  In (edge 1 2)
     (consistent_bidirectional_edges
        snapshot_both snapshot_both snapshot_both snapshot_one_way) /\
  ~ In (edge 3 4)
     (consistent_bidirectional_edges
        snapshot_both snapshot_both snapshot_both snapshot_one_way).
Proof.
  split; [exact in_consistent_bidirectional_edges|]. split; [|split].
  - intros. unfold consistent_bidirectional_edges. apply NoDup_intersect.
  - apply in_consistent_bidirectional_edges.
    exists 1, 2. split; [reflexivity|].
    intros t [<-|[<-|[<-|[<-|[]]]]]; cbn; auto.
  - intros H. apply in_consistent_bidirectional_edges in H.
    destruct H as (u & v & E & H). inversion E; subst u v.
    destruct (H snapshot_one_way) as [_ H43]; [cbn; auto|].
    cbn in H43.
    repeat (destruct H43 as [H43|H43]; [discriminate H43|]).
    exact H43.
Qed.

(** C9: a self-loop [u -> u] that is a row of all four snapshots gives the
    row [(u, u)] in the result: the join condition holds for the self-loop
    matched with itself, and the query has no [u <> v] restriction. *)
Theorem self_loop_consistent_bidirectional
    (em lm may june : list Edge) (u : Z) :
  (forall t, In t [em; lm; may; june] -> In (edge u u) t) ->
  sql_holds (swapped_on (edge u u) (edge u u)) = true /\
  In (edge u u) (consistent_bidirectional_edges em lm may june).
Proof.
  intros H. split.
  - apply swapped_on_holds. now exists u, u.
  - apply in_consistent_bidirectional_edges.
    exists u, u. split; [reflexivity|].
    intros t Ht. split; now apply H.
Qed.

Lemma self_loop_consistent_bidirectional_witness :
  (forall t, In t [[edge 7 7; edge 7 8]; [edge 7 7]; [edge 7 7]; [edge 7 7]] ->
             In (edge 7 7) t) /\
  sql_holds (swapped_on (edge 7 7) (edge 7 7)) = true /\
  In (edge 7 7)
     (consistent_bidirectional_edges
        [edge 7 7; edge 7 8] [edge 7 7] [edge 7 7] [edge 7 7]).
Proof.
  assert (H : forall t,
             In t [[edge 7 7; edge 7 8]; [edge 7 7]; [edge 7 7]; [edge 7 7]] ->
             In (edge 7 7) t).
  { intros t [<-|[<-|[<-|[<-|[]]]]]; cbn; auto. }
  split; [exact H|].
  exact (self_loop_consistent_bidirectional
           [edge 7 7; edge 7 8] [edge 7 7] [edge 7 7] [edge 7 7] 7 H).
Defined.

(** Each per-snapshot query already returns a symmetric set of rows. *)
Lemma bidirectional_edges_symmetric (t : list Edge) (a b : IntegerType) :
  In (mkEdge a b) (bidirectional_edges t) ->
  In (mkEdge b a) (bidirectional_edges t).
Proof.
  rewrite !in_bidirectional_edges.
  intros (u & v & E & H1 & H2). inversion E; subst.
  exists v, u. auto.
Qed.

(** C10: the result is symmetric as a set of directed
    [(FromNodeId, ToNodeId)] rows: with the row [(a, b)] it holds the row
    [(b, a)]. *)
Theorem consistent_bidirectional_edges_symmetric
    (em lm may june : list Edge) (a b : IntegerType) :
  In (mkEdge a b) (consistent_bidirectional_edges em lm may june) ->
  In (mkEdge b a) (consistent_bidirectional_edges em lm may june).
Proof.
  rewrite !in_consistent_bidirectional_edges.
  intros (u & v & E & H). inversion E; subst.
  exists v, u. split; [reflexivity|].
  intros t Ht. destruct (H t Ht). auto.
Qed.

Lemma consistent_bidirectional_edges_symmetric_witness :
  In (mkEdge (Some 1) (Some 2))
     (consistent_bidirectional_edges
        snapshot_both snapshot_both snapshot_both snapshot_one_way) /\
  In (mkEdge (Some 2) (Some 1))
     (consistent_bidirectional_edges
        snapshot_both snapshot_both snapshot_both snapshot_one_way).
Proof.
  assert (H : In (mkEdge (Some 1) (Some 2))
     (consistent_bidirectional_edges
        snapshot_both snapshot_both snapshot_both snapshot_one_way)).
  { vm_compute. auto. }
  split; [exact H|].
  exact (consistent_bidirectional_edges_symmetric
           snapshot_both snapshot_both snapshot_both snapshot_one_way
           (Some 1) (Some 2) H).
Defined.

(* --------------------------------------------------------------------- *)
(** ** The record parser *)
(* --------------------------------------------------------------------- *)

Lemma split_fuel_not_nil (fuel : nat) (r : Pattern) (s : text) :
  split_fuel fuel r s <> [].
Proof.
  destruct fuel as [|fuel]; cbn; [discriminate|].
  destruct (find r s) as [f|]; [|discriminate].
  destruct (matched f); discriminate.
Qed.

(** [F.split] never returns an empty array. *)
Lemma split_not_nil (s : string) (r : Pattern) : split s r <> [].
Proof.
  unfold split. intros H. apply map_eq_nil in H.
  now apply split_fuel_not_nil in H.
Qed.

(** [F.split] of the empty string is the array of one empty string. *)
Lemma split_empty (r : Pattern) : split EmptyString r = [EmptyString].
Proof.
  unfold split. cbn. unfold find. cbn.
  destruct (match_here r []) as [[s' caps]|]; cbn; [|reflexivity].
  unfold consumed. cbn. reflexivity.
Qed.

Lemma regexp_extract_no_match (v : string) (r : Pattern) (idx : nat) :
  find r (list_ascii_of_string v) = None ->
  regexp_extract v r idx = EmptyString.
Proof. intros H. unfold regexp_extract. now rewrite H. Qed.

(** The row of a block that fails the composite pattern. *)
Lemma with_columns_composite_fails (v : string) :
  composite_fails v -> with_columns v = defaults_row v.
Proof.
  intros H. unfold with_columns, defaults_row, block_id, block_asin.
  rewrite !(regexp_extract_no_match v regex) by exact H.
  now rewrite !split_empty.
Qed.

Lemma with_columns_value (v : string) : value (with_columns v) = v.
Proof. reflexivity. Qed.

Lemma with_columns_id (v : string) : id (with_columns v) = block_id v.
Proof. reflexivity. Qed.

Lemma with_columns_reviews (v : string) :
  reviews (with_columns v) = split (regexp_extract v regex 13) (Str CRLF).
Proof. reflexivity. Qed.

Lemma id_present_with_columns (v : string) :
  id_present (with_columns v) = negb (String.eqb (block_id v) EmptyString).
Proof. reflexivity. Qed.

Lemma in_metadata_df (meta_file : string) (r : Product) :
  In r (metadata_df meta_file) <->
  exists v, In v (df1 meta_file) /\ r = with_columns v /\
            block_id v <> EmptyString.
Proof.
  unfold metadata_df. rewrite filter_In, in_map_iff. split.
  - intros [(v & <- & Hv) Hid]. exists v. repeat split; try assumption.
    rewrite id_present_with_columns in Hid.
    destruct (String.eqb_spec (block_id v) EmptyString); [discriminate|].
    assumption.
  - intros (v & Hv & -> & Hid). split; [now exists v|].
    rewrite id_present_with_columns.
    destruct (String.eqb_spec (block_id v) EmptyString);
      [contradiction|reflexivity].
Qed.

Lemma map_filter_with_columns (f : Product -> string) (g : string -> string)
    (blocks : list string) :
  (forall v, f (with_columns v) = g v) ->
  map f (filter id_present (map with_columns blocks)) =
  map g (filter (fun v => negb (String.eqb (block_id v) EmptyString)) blocks).
Proof.
  intros Hfg. induction blocks as [|v blocks IH]; cbn [map filter].
  - reflexivity.
  - rewrite id_present_with_columns.
    destruct (negb (String.eqb (block_id v) EmptyString));
      cbn [map]; now rewrite ?Hfg, IH.
Qed.

(** C6, as the parser has it: the ids of the output are the non-empty ids
    extracted from the blocks, in block order and with their repetitions;
    nothing is de-duplicated, so the output ids are pairwise distinct
    exactly when the non-empty block ids are. *)
Theorem metadata_df_ids (meta_file : string) :
  map id (metadata_df meta_file) =
    filter (fun i => negb (String.eqb i EmptyString))
           (map block_id (df1 meta_file)) /\
  (NoDup (map id (metadata_df meta_file)) <->
   NoDup (filter (fun i => negb (String.eqb i EmptyString))
                 (map block_id (df1 meta_file)))).
Proof.
  assert (E : map id (metadata_df meta_file) =
    filter (fun i => negb (String.eqb i EmptyString))
           (map block_id (df1 meta_file))).
  { unfold metadata_df.
    rewrite (map_filter_with_columns id block_id) by apply with_columns_id.
    generalize (df1 meta_file). intros blocks.
    induction blocks as [|v blocks IH]; cbn [map filter]; [reflexivity|].
    destruct (negb (String.eqb (block_id v) EmptyString));
      cbn [map]; now rewrite IH. }
  split; [exact E|]. now rewrite E.
Qed.

(** Two rows of the output of [meta_duplicate] share the id 21. *)
Lemma metadata_df_ids_not_unique :
  ~ NoDup (map id (metadata_df meta_duplicate)).
Proof.
  assert (E : map id (metadata_df meta_duplicate)
              = ["21"; "0"; "21"]%string) by (vm_compute; reflexivity).
  rewrite E. intros H. inversion H as [|x l Hnotin _]; subst.
  apply Hnotin. cbn. auto.
Qed.

(** C8: the output has exactly one row per block with a non-empty id, in
    block order; every row is the row of its block and has a non-empty id;
    a block whose id is empty has no row; and a block with a non-empty id
    on which the composite pattern fails is kept, each column extracted by
    the composite pattern being the empty string (the three array columns
    being its [split], the array of one empty string). *)
Theorem metadata_df_one_row_per_block (meta_file : string) :
  map value (metadata_df meta_file) =
    filter (fun v => negb (String.eqb (block_id v) EmptyString))
           (df1 meta_file) /\
  (forall r, In r (metadata_df meta_file) ->
             r = with_columns (value r) /\ id r <> EmptyString) /\
  (forall v, block_id v = EmptyString ->
             forall r, In r (metadata_df meta_file) -> value r <> v) /\
  (forall v, In v (df1 meta_file) -> block_id v <> EmptyString ->
             composite_fails v ->
             In (defaults_row v) (metadata_df meta_file) /\
             forall idx, regexp_extract v regex idx = EmptyString).
Proof.
  split; [|split; [|split]].
  - unfold metadata_df.
    rewrite (map_filter_with_columns value (fun v => v))
      by apply with_columns_value.
    now rewrite map_id.
  - intros r Hr. apply in_metadata_df in Hr.
    destruct Hr as (v & _ & -> & Hid). split; [reflexivity|exact Hid].
  - intros v Hv r Hr Heq. apply in_metadata_df in Hr.
    destruct Hr as (v' & _ & -> & Hid). cbn in Heq. subst v'.
    contradiction.
  - intros v Hv Hid Hfail. split.
    + apply in_metadata_df. exists v. repeat split; try assumption.
      symmetry. now apply with_columns_composite_fails.
    + intros idx. now apply regexp_extract_no_match.
Qed.

(** The discontinued product of [meta_example] is such a block. *)
Example block_0_kept :
  In block_0 (df1 meta_example) /\ block_id block_0 = "0"%string /\
  composite_fails block_0 /\
  In (defaults_row block_0) (metadata_df meta_example).
Proof.
  split; [|split; [|split]].
  - vm_compute. auto.
  - vm_compute. reflexivity.
  - vm_compute. reflexivity.
  - vm_compute. auto.
Qed.

(** A well-formed block: every column is read off its line. *)
Example with_columns_block_21 :
  let r := with_columns block_21 in
  id r = "21"%string /\ asin r = "B00000AU3R"%string /\
  title r = "Batik"%string /\ group r = "Music"%string /\
  salesrank r = "5392"%string /\ similar_count r = "2"%string /\
  similar r = ["B000002MY3"; "B000002HU5"]%string /\
  categories_count r = "1"%string /\
  reviews_total r = "6"%string /\ reviews_downloaded r = "6"%string /\
  reviews_avg_rating r = "4.5"%string /\
  List.length (reviews r) = 6%nat /\
  map (fun rv => regexp_extract rv rating_regex 1) (reviews r) =
    ["5"; "4"; "5"; "3"; "4"; "5"]%string.
Proof. vm_compute. repeat split. Qed.

(* --------------------------------------------------------------------- *)
(** ** Q1: grouping, totals and percentages *)
(* --------------------------------------------------------------------- *)

Lemma sum_counts_bump (k : string) (df : list RatingCount) :
  sum_counts (bump k df) = sum_counts df + 1.
Proof.
  unfold sum_counts.
  induction df as [|g df IH]; cbn; [reflexivity|].
  destruct (String.eqb (rating g) k); cbn; lia.
Qed.

(** The counts of the groups add up to the number of grouped rows. *)
Lemma sum_counts_groupBy_count (keys : list string) :
  sum_counts (groupBy_count keys) = Z.of_nat (List.length keys).
Proof.
  induction keys as [|k keys IH].
  - reflexivity.
  - change (groupBy_count (k :: keys)) with (bump k (groupBy_count keys)).
    rewrite sum_counts_bump, IH. cbn [List.length]. lia.
Qed.

Lemma bump_not_nil (k : string) (df : list RatingCount) : bump k df <> [].
Proof.
  destruct df as [|g df]; cbn; [discriminate|].
  destruct (String.eqb (rating g) k); discriminate.
Qed.

Lemma groupBy_count_nil (keys : list string) :
  groupBy_count keys = [] <-> keys = [].
Proof.
  split.
  - destruct keys as [|k keys]; [reflexivity|].
    intros H. now apply bump_not_nil in H.
  - intros ->. reflexivity.
Qed.

Lemma insert_desc_perm (x : RatingPercentage) (l : list RatingPercentage) :
  Permutation (insert_desc x l) (x :: l).
Proof.
  induction l as [|y l IH]; cbn.
  - apply Permutation_refl.
  - destruct (String.leb (pct_rating y) (pct_rating x)).
    + apply Permutation_refl.
    + eapply Permutation_trans; [apply perm_skip, IH|apply perm_swap].
Qed.

(** Sorting reorders the rows and nothing else. *)
Lemma orderBy_rating_desc_perm (df : list RatingPercentage) :
  Permutation (orderBy_rating_desc df) df.
Proof.
  induction df as [|x df IH]; cbn.
  - apply Permutation_refl.
  - eapply Permutation_trans; [apply insert_desc_perm|].
    now apply perm_skip.
Qed.

Lemma percentages_all_some (df : list RatingPercentage) :
  Forall (fun r => percentage r <> None) df ->
  percentages df = Some (map pct_value df).
Proof.
  induction 1 as [|r df Hr _ IH]; cbn; [reflexivity|].
  rewrite IH. unfold pct_value.
  destruct (percentage r); [reflexivity|contradiction].
Qed.

Lemma Qsum_perm (f : RatingPercentage -> Q) (l l' : list RatingPercentage) :
  Permutation l l' -> (Qsum (map f l) == Qsum (map f l'))%Q.
Proof.
  induction 1; cbn.
  - reflexivity.
  - now rewrite IHPermutation.
  - ring.
  - now rewrite IHPermutation1.
Qed.

Lemma percentage_of_total (c t : Z) :
  t <> 0 ->
  percentage_of c (Some t) = Some (inject_Z c / inject_Z t * 100)%Q.
Proof.
  intros Ht. unfold percentage_of, sql_div.
  destruct (Z.eqb_spec t 0); [contradiction|reflexivity].
Qed.

Lemma inject_Z_nonzero (t : Z) : t <> 0 -> ~ (inject_Z t == 0)%Q.
Proof.
  intros Ht H. apply Ht.
  unfold Qeq in H. cbn in H. lia.
Qed.

Lemma Qsum_with_percentage (t : Z) (df : list RatingCount) :
  t <> 0 ->
  (Qsum (map pct_value (map (with_percentage (Some t)) df))
   == inject_Z (sum_counts df) / inject_Z t * 100)%Q.
Proof.
  intros Ht. pose proof (inject_Z_nonzero t Ht) as Hq.
  induction df as [|g df IH].
  - cbn. field. exact Hq.
  - cbn [map Qsum fold_right]. fold (Qsum (map pct_value
      (map (with_percentage (Some t)) df))).
    rewrite IH.
    unfold pct_value at 1. cbn [with_percentage percentage].
    rewrite percentage_of_total by exact Ht.
    unfold sum_counts. cbn [map fold_right]. rewrite inject_Z_plus.
    field. exact Hq.
Qed.

Lemma rating_percentages_df_unfold (node_metadata_df : list Product)
    (P : string) :
  rating_percentages_df node_metadata_df P =
  match agg_sum (rating_counts_df node_metadata_df P) with
  | [] => Raise IndexError
  | total :: _ =>
      Return (orderBy_rating_desc
                (map (with_percentage total)
                     (rating_counts_df node_metadata_df P)))
  end.
Proof.
  unfold rating_percentages_df, total_ratings, collect_0, bind.
  destruct (agg_sum (rating_counts_df node_metadata_df P)); reflexivity.
Qed.

Lemma rating_counts_df_total (node_metadata_df : list Product) (P : string) :
  sum_counts (rating_counts_df node_metadata_df P) =
  Z.of_nat (List.length (explode_reviews (product_21_df node_metadata_df P))).
Proof.
  unfold rating_counts_df, product_21_reviews_df.
  now rewrite sum_counts_groupBy_count, !length_map.
Qed.

(** With at least one exploded review the total is the number of exploded
    reviews, which is not zero, and every group gets its share of it. *)
Lemma rating_percentages_df_rows (node_metadata_df : list Product)
    (P : string) :
  explode_reviews (product_21_df node_metadata_df P) <> [] ->
  exists t,
    t = sum_counts (rating_counts_df node_metadata_df P) /\
    t <> 0 /\
    rating_counts_df node_metadata_df P <> [] /\
    rating_percentages_df node_metadata_df P =
      Return (orderBy_rating_desc
                (map (with_percentage (Some t))
                     (rating_counts_df node_metadata_df P))).
Proof.
  intros Hne.
  pose proof (rating_counts_df_total node_metadata_df P) as Htot.
  set (counts := rating_counts_df node_metadata_df P) in *.
  exists (sum_counts counts).
  assert (Ht : sum_counts counts <> 0).
  { rewrite Htot.
    destruct (explode_reviews (product_21_df node_metadata_df P));
      [contradiction|cbn [List.length]; lia]. }
  assert (Hcounts : counts <> []).
  { intros E. apply Ht. now rewrite E. }
  repeat split; try assumption.
  rewrite rating_percentages_df_unfold. fold counts.
  unfold agg_sum, sum_counts. destruct counts; [contradiction|reflexivity].
Qed.

(** C2: when the reviews exploded for product id [P] are not empty, the
    cell returns at least one row, no percentage is NULL, and the
    percentages [count / total * 100], as exact rationals, add up to 100. *)
Theorem rating_percentages_sum_100 (node_metadata_df : list Product)
    (P : string) :
  explode_reviews (product_21_df node_metadata_df P) <> [] ->
  exists rows qs,
    rating_percentages_df node_metadata_df P = Return rows /\
    rows <> [] /\
    percentages rows = Some qs /\
    (Qsum qs == 100)%Q.
Proof.
  intros Hne.
  destruct (rating_percentages_df_rows node_metadata_df P Hne)
    as (t & Et & Ht & Hcounts & Hret).
  set (counts := rating_counts_df node_metadata_df P) in *.
  exists (orderBy_rating_desc (map (with_percentage (Some t)) counts)),
         (map pct_value
              (orderBy_rating_desc (map (with_percentage (Some t)) counts))).
  split; [exact Hret|]. split; [|split].
  - intros E.
    pose proof (orderBy_rating_desc_perm
                  (map (with_percentage (Some t)) counts)) as Hp.
    rewrite E in Hp. apply Permutation_nil in Hp.
    apply map_eq_nil in Hp. contradiction.
  - apply percentages_all_some.
    eapply Permutation_Forall;
      [apply Permutation_sym, orderBy_rating_desc_perm|].
    apply Forall_forall. intros r Hr.
    apply in_map_iff in Hr. destruct Hr as (g & <- & _).
    cbn. rewrite percentage_of_total by exact Ht. discriminate.
  - rewrite (Qsum_perm pct_value _ _ (orderBy_rating_desc_perm _)).
    rewrite Qsum_with_percentage by exact Ht.
    rewrite <- Et. field. now apply inject_Z_nonzero.
Qed.

Lemma rating_percentages_sum_100_witness :
  explode_reviews (product_21_df (metadata_df meta_example) "21") <> [] /\
  exists rows qs,
    rating_percentages_df (metadata_df meta_example) "21" = Return rows /\
    rows <> [] /\
    percentages rows = Some qs /\
    (Qsum qs == 100)%Q.
Proof.
  assert (H : explode_reviews
                (product_21_df (metadata_df meta_example) "21") <> [])
    by (vm_compute; discriminate).
  split; [exact H|].
  exact (rating_percentages_sum_100 (metadata_df meta_example) "21" H).
Defined.

Lemma product_21_df_nil (node_metadata_df : list Product) (P : string) :
  (forall r, In r node_metadata_df -> id r <> P) ->
  product_21_df node_metadata_df P = [].
Proof.
  intros H. unfold product_21_df.
  induction node_metadata_df as [|r df IH]; cbn; [reflexivity|].
  destruct (String.eqb_spec (id r) P) as [Heq|_].
  - exfalso. apply (H r); [now left|exact Heq].
  - apply IH. intros r' Hr'. apply H. now right.
Qed.

Lemma in_product_21_df (node_metadata_df : list Product) (P : string)
    (r : Product) :
  In r (product_21_df node_metadata_df P) <->
  In r node_metadata_df /\ id r = P.
Proof.
  unfold product_21_df. rewrite filter_In.
  destruct (String.eqb_spec (id r) P); intuition congruence.
Qed.

(** C7: when no row of the table has id [P], the cell returns the empty
    sequence and raises nothing. *)
Theorem rating_percentages_unknown_product (node_metadata_df : list Product)
    (P : string) :
  (forall r, In r node_metadata_df -> id r <> P) ->
  rating_percentages_df node_metadata_df P = Return [].
Proof.
  intros H.
  unfold rating_percentages_df, total_ratings, rating_counts_df,
    product_21_reviews_df.
  rewrite (product_21_df_nil _ _ H). reflexivity.
Qed.

Lemma rating_percentages_unknown_product_witness :
  (forall r, In r (metadata_df meta_example) -> id r <> "7"%string) /\
  rating_percentages_df (metadata_df meta_example) "7" = Return [].
Proof.
  assert (H : forall r, In r (metadata_df meta_example) ->
                        id r <> "7"%string).
  { intros r Hr. apply (in_map id) in Hr.
    assert (E : map id (metadata_df meta_example)
                = ["0"; "21"; "30"]%string) by (vm_compute; reflexivity).
    rewrite E in Hr. cbn in Hr.
    destruct Hr as [<-|[<-|[<-|[]]]]; discriminate. }
  split; [exact H|].
  exact (rating_percentages_unknown_product (metadata_df meta_example) "7" H).
Defined.

(** The spec's example: ratings 5, 5, 5, 4, 4, 3 give 3/6, 2/6 and 1/6 of
    100, largest rating first. *)
Example rating_percentages_product_21 :
  rating_percentages_df (metadata_df meta_example) "21" =
  Return [mkRatingPercentage "5" 3 (Some (300 # 6));
          mkRatingPercentage "4" 2 (Some (200 # 6));
          mkRatingPercentage "3" 1 (Some (100 # 6))].
Proof. vm_compute. reflexivity. Qed.

(* --------------------------------------------------------------------- *)
(** ** Q1 on a product without reviews *)
(* --------------------------------------------------------------------- *)

Lemma groupBy_count_repeat (k : string) (n : nat) :
  groupBy_count (repeat k (S n)) = [mkRatingCount k (Z.of_nat (S n))].
Proof.
  induction n as [|n IH].
  - reflexivity.
  - change (groupBy_count (repeat k (S (S n))))
      with (bump k (groupBy_count (repeat k (S n)))).
    rewrite IH. cbn [bump rating count]. rewrite String.eqb_refl.
    f_equal. f_equal. lia.
Qed.

(** The [reviews] array of a parsed row without reviews. *)
Lemma zero_reviews_array (meta_file : string) (r : Product) :
  In r (metadata_df meta_file) -> zero_reviews r ->
  reviews r = [EmptyString].
Proof.
  intros Hr Hz. apply in_metadata_df in Hr.
  destruct Hr as (v & _ & -> & _).
  unfold zero_reviews in Hz. cbn [value with_columns] in Hz.
  rewrite with_columns_reviews, Hz. apply split_empty.
Qed.

Lemma explode_reviews_zero (df : list Product) :
  (forall r, In r df -> reviews r = [EmptyString]) ->
  explode_reviews df = repeat EmptyString (List.length df).
Proof.
  unfold explode_reviews.
  induction df as [|r df IH]; intros H; cbn; [reflexivity|].
  rewrite (H r) by now left. cbn. f_equal. apply IH.
  intros r' Hr'. apply H. now right.
Qed.

Lemma map_repeat {A B : Type} (f : A -> B) (x : A) (n : nat) :
  map f (repeat x n) = repeat (f x) n.
Proof. induction n; cbn; congruence. Qed.

(** On a parsed table the cell returns the empty sequence only for an id
    that no row has: the [reviews] array of a row is never empty. *)
Lemma rating_percentages_df_nil_iff (meta_file : string) (P : string) :
  rating_percentages_df (metadata_df meta_file) P = Return [] <->
  forall r, In r (metadata_df meta_file) -> id r <> P.
Proof.
  split.
  - intros Hnil r Hr Hid.
    assert (Hne : explode_reviews
                    (product_21_df (metadata_df meta_file) P) <> []).
    { assert (Hin : In r (product_21_df (metadata_df meta_file) P))
        by (apply in_product_21_df; auto).
      apply in_metadata_df in Hr. destruct Hr as (v & _ & -> & _).
      destruct (split (regexp_extract v regex 13) (Str CRLF))
        as [|x l] eqn:E; [now apply split_not_nil in E|].
      intros Hexp.
      assert (Hx : In x (explode_reviews
                           (product_21_df (metadata_df meta_file) P))).
      { unfold explode_reviews. apply in_flat_map.
        exists (with_columns v). split; [exact Hin|].
        rewrite with_columns_reviews, E. now left. }
      now rewrite Hexp in Hx. }
    destruct (rating_percentages_df_rows _ _ Hne)
      as (t & _ & _ & Hcounts & Hret).
    rewrite Hret in Hnil. injection Hnil as Hnil.
    pose proof (orderBy_rating_desc_perm
                  (map (with_percentage (Some t))
                       (rating_counts_df (metadata_df meta_file) P))) as Hp.
    rewrite Hnil in Hp. apply Permutation_nil in Hp.
    apply map_eq_nil in Hp. contradiction.
  - intros H.
    unfold rating_percentages_df, total_ratings, rating_counts_df,
      product_21_reviews_df.
    rewrite (product_21_df_nil _ _ H). reflexivity.
Qed.

(** C3, as the notebook has it: when the parsed rows with id [P] exist and
    all have zero reviews, each of them still has the [reviews] array
    [[""]], and the cell returns not the empty sequence but one group: the
    empty rating, counted once per such row, with percentage 100. *)
Theorem rating_percentages_zero_reviews (meta_file : string) (P : string) :
  (exists r, In r (metadata_df meta_file) /\ id r = P) ->
  (forall r, In r (metadata_df meta_file) -> id r = P -> zero_reviews r) ->
  (forall r, In r (metadata_df meta_file) -> id r = P ->
             reviews r = [EmptyString]) /\
  exists n q,
    rating_percentages_df (metadata_df meta_file) P =
      Return [mkRatingPercentage EmptyString n (Some q)] /\
    n = Z.of_nat (List.length (product_21_df (metadata_df meta_file) P)) /\
    0 < n /\ (q == 100)%Q.
Proof.
  intros (r0 & Hr0 & Hid0) Hzero.
  assert (Harr : forall r, In r (metadata_df meta_file) -> id r = P ->
                           reviews r = [EmptyString]).
  { intros r Hr Hid. apply (zero_reviews_array meta_file); auto. }
  split; [exact Harr|].
  set (table := metadata_df meta_file) in *.
  assert (Hlen : exists m, List.length (product_21_df table P) = S m).
  { assert (Hin : In r0 (product_21_df table P))
      by (apply in_product_21_df; auto).
    destruct (product_21_df table P); [contradiction|].
    cbn. eauto. }
  destruct Hlen as [m Hm].
  assert (Hcounts : rating_counts_df table P
                    = [mkRatingCount EmptyString (Z.of_nat (S m))]).
  { unfold rating_counts_df, product_21_reviews_df.
    rewrite explode_reviews_zero.
    - rewrite Hm, !map_repeat. cbn [review_rating].
      assert (E : regexp_extract EmptyString rating_regex 1 = EmptyString)
        by reflexivity.
      rewrite E. apply groupBy_count_repeat.
    - intros r Hr. apply in_product_21_df in Hr. destruct Hr.
      now apply Harr. }
  exists (Z.of_nat (S m)),
         (inject_Z (Z.of_nat (S m)) / inject_Z (Z.of_nat (S m)) * 100)%Q.
  split; [|split; [|split]].
  - rewrite rating_percentages_df_unfold, Hcounts.
    cbn [agg_sum map fold_right count collect_0 orderBy_rating_desc
         insert_desc with_percentage rating].
    rewrite Z.add_0_r. unfold with_percentage. cbn [rating count].
    rewrite percentage_of_total by lia. reflexivity.
  - now rewrite Hm.
  - lia.
  - field. apply inject_Z_nonzero. lia.
Qed.

Lemma rating_percentages_zero_reviews_witness :
  (exists r, In r (metadata_df meta_example) /\ id r = "30"%string) /\
  (forall r, In r (metadata_df meta_example) -> id r = "30"%string ->
             zero_reviews r) /\
  (forall r, In r (metadata_df meta_example) -> id r = "30"%string ->
             reviews r = [EmptyString]) /\
  exists n q,
    rating_percentages_df (metadata_df meta_example) "30" =
      Return [mkRatingPercentage EmptyString n (Some q)] /\
    n = Z.of_nat
          (List.length (product_21_df (metadata_df meta_example) "30")) /\
    0 < n /\ (q == 100)%Q.
Proof.
  assert (E : metadata_df meta_example =
              map with_columns [block_0; block_21; block_30])
    by (vm_compute; reflexivity).
  assert (H1 : exists r, In r (metadata_df meta_example) /\
                         id r = "30"%string).
  { exists (with_columns block_30). split.
    - rewrite E. cbn. auto.
    - vm_compute. reflexivity. }
  assert (H2 : forall r, In r (metadata_df meta_example) ->
                         id r = "30"%string -> zero_reviews r).
  { intros r Hr. rewrite E in Hr. cbn [map In] in Hr.
    destruct Hr as [<-|[<-|[<-|[]]]]; intros Hid.
    - vm_compute in Hid. discriminate Hid.
    - vm_compute in Hid. discriminate Hid.
    - vm_compute. reflexivity. }
  split; [exact H1|]. split; [exact H2|].
  exact (rating_percentages_zero_reviews meta_example "30" H1 H2).
Defined.

(** Product 30 of [meta_example] is parsed, its review total is 0 and no
    review text is captured; the cell returns one row for it, as it does
    for the discontinued product 0. *)
Lemma rating_percentages_zero_reviews_not_empty :
  (exists r, In r (metadata_df meta_example) /\ id r = "30"%string /\
             reviews_total r = "0"%string /\ zero_reviews r) /\
  rating_percentages_df (metadata_df meta_example) "30" =
    Return [mkRatingPercentage EmptyString 1 (Some 100%Q)] /\
  rating_percentages_df (metadata_df meta_example) "30" <> Return [] /\
  rating_percentages_df (metadata_df meta_example) "0" =
    Return [mkRatingPercentage EmptyString 1 (Some 100%Q)].
Proof.
  assert (E : rating_percentages_df (metadata_df meta_example) "30" =
              Return [mkRatingPercentage EmptyString 1 (Some 100%Q)])
    by (vm_compute; reflexivity).
  split; [|split; [|split]].
  - exists (with_columns block_30). split; [|split; [|split]].
    + vm_compute. auto.
    + vm_compute. reflexivity.
    + vm_compute. reflexivity.
    + vm_compute. reflexivity.
  - exact E.
  - rewrite E. discriminate.
  - vm_compute. reflexivity.
Qed.

(* --------------------------------------------------------------------- *)
(** ** The edge set loader *)
(* --------------------------------------------------------------------- *)


Lemma integer_field_some (spark : SparkSession) (tokens : list text)
    (i : nat) (n : Z) :
  integer_field spark tokens i = Some n <->
  exists t, nth_error tokens i = Some t /\ parseInt spark t = Some n.
Proof.
  unfold integer_field. split.
  - destruct (nth_error tokens i) as [[|c t]|]; try discriminate.
    intros H. now exists (c :: t).
  - intros (t & -> & H). destruct t as [|c t]; [|exact H].
    unfold parseInt in H. cbn in H. discriminate H.
Qed.










(* --------------------------------------------------------------------- *)
(** ** Lists that grow at the end *)
(* --------------------------------------------------------------------- *)

Lemma last_cons_default {A : Type} (x d : A) (l : list A) :
  last (x :: l) d = last l x.
Proof.
  revert x d. induction l as [|y l IH]; intros x d; [reflexivity|].
  change (last (x :: y :: l) d) with (last (y :: l) d).
  now rewrite !IH.
Qed.

Lemma NoDup_snoc {A : Type} (l : list A) (x : A) :
  NoDup (l ++ [x]) <-> NoDup l /\ ~ In x l.
Proof.
  split.
  - intros H. apply NoDup_remove in H. rewrite app_nil_r in H. exact H.
  - intros [H1 H2].
    apply (Permutation_NoDup (Permutation_cons_append l x)).
    now constructor.
Qed.


Lemma In_firstn {A : Type} (n : nat) (l : list A) (x : A) :
  In x (firstn n l) -> In x l.
Proof.
  revert n. induction l as [|y l IH]; intros [|n]; cbn; try tauto.
  intros [->|Hin]; [now left|right; eauto].
Qed.

Lemma end_of_snoc (u : Product) (hs : list (Edge * Product))
    (ed : Edge) (v : Product) :
  end_of u (hs ++ [(ed, v)]) = v.
Proof. unfold end_of. rewrite map_app. cbn. apply last_last. Qed.

Lemma end_of_cons (u : Product) (ed : Edge) (v : Product)
    (hs : list (Edge * Product)) :
  end_of u ((ed, v) :: hs) = end_of v hs.
Proof. unfold end_of. cbn [map snd]. apply last_cons_default. Qed.

Lemma is_path_app (a2b : list Motif) (u : Product)
    (h1 h2 : list (Edge * Product)) :
  is_path a2b u (h1 ++ h2) <->
  is_path a2b u h1 /\ is_path a2b (end_of u h1) h2.
Proof.
  revert u. induction h1 as [|[ed v] h1 IH]; intros u.
  - cbn. tauto.
  - cbn [app is_path]. rewrite end_of_cons, IH. tauto.
Qed.

Lemma set_last_snoc (hs : list (Edge * Product)) (ed : Edge)
    (w v : Product) :
  set_last (hs ++ [(ed, w)]) v = hs ++ [(ed, v)].
Proof.
  induction hs as [|[ed1 v1] hs IH]; [reflexivity|].
  destruct hs as [|h hs]; [reflexivity|].
  change (set_last (((ed1, v1) :: h :: hs) ++ [(ed, w)]) v)
    with ((ed1, v1) :: set_last ((h :: hs) ++ [(ed, w)]) v).
  now rewrite IH.
Qed.

Lemma hop_ids_app (h1 h2 : list (Edge * Product)) :
  hop_ids (h1 ++ h2) = hop_ids h1 ++ hop_ids h2.
Proof. apply map_app. Qed.

(* --------------------------------------------------------------------- *)
(** ** The motif table *)
(* --------------------------------------------------------------------- *)

Lemma in_find_a_e_b (g : GraphFrame) (m : Motif) :
  In m (find_a_e_b g) <->
  In (motif_e m) (edges g) /\
  In (motif_a m) (vertices g) /\ id_is (motif_a m) (src (motif_e m)) = true /\
  In (motif_b m) (vertices g) /\ id_is (motif_b m) (dst (motif_e m)) = true.
Proof.
  unfold find_a_e_b. rewrite in_flat_map. split.
  - intros (ed & Hed & H). apply in_flat_map in H.
    destruct H as (va & Hva & H). apply in_map_iff in H.
    destruct H as (vb & <- & Hvb). apply filter_In in Hva, Hvb. cbn.
    tauto.
  - destruct m as [va ed vb]. cbn. intros (Hed & Hva & Ha & Hvb & Hb).
    exists ed. split; [assumption|]. apply in_flat_map.
    exists va. split; [now apply filter_In|]. apply in_map_iff.
    exists vb. split; [reflexivity|now apply filter_In].
Qed.

Lemma id_is_by_id (u v : Product) (n : IntegerType) :
  id u = id v -> id_is u n = id_is v n.
Proof. unfold id_is. now intros ->. Qed.

Lemma a2b_vertices (g : GraphFrame) (m : Motif) :
  In m (find_a_e_b g) ->
  In (motif_a m) (vertices g) /\ In (motif_b m) (vertices g).
Proof. rewrite in_find_a_e_b. tauto. Qed.

(** Whether two vertices are joined by an edge depends on their ids
    only. *)
Lemma a2b_by_id (g : GraphFrame) (m : Motif) (va vb : Product) :
  In m (find_a_e_b g) ->
  In va (vertices g) -> In vb (vertices g) ->
  id va = id (motif_a m) -> id vb = id (motif_b m) ->
  In (mkMotif va (motif_e m) vb) (find_a_e_b g).
Proof.
  rewrite !in_find_a_e_b. cbn.
  intros (He & _ & Ha & _ & Hb) Hva Hvb Ea Eb.
  rewrite (id_is_by_id _ _ _ Ea), (id_is_by_id _ _ _ Eb). tauto.
Qed.


Lemma end_vertex_end_of (p : Path) : end_vertex p = end_of (from p) (hops p).
Proof. reflexivity. Qed.

(* --------------------------------------------------------------------- *)
(** ** The paths of each iteration *)
(* --------------------------------------------------------------------- *)

Lemma previousVertexChecks_snoc (u : Product) (hs : list (Edge * Product))
    (ed : Edge) (v : Product) :
  previousVertexChecks (mkPath u (hs ++ [(ed, v)])) = true <->
  ~ In (id v) (id u :: hop_ids hs).
Proof.
  unfold previousVertexChecks, path_ids. cbn [from hops].
  rewrite end_vertex_end_of. cbn [from hops]. rewrite end_of_snoc.
  fold (hop_ids (hs ++ [(ed, v)])). rewrite hop_ids_app. cbn [hop_ids map snd].
  rewrite app_comm_cons, removelast_last, forallb_forall. split.
  - intros H Hin. specialize (H _ Hin).
    now rewrite String.eqb_refl in H.
  - intros H i Hi. destruct (String.eqb_spec i (id v)); [|reflexivity].
    subst i. contradiction.
Qed.

Lemma path_ids_snoc (u : Product) (hs : list (Edge * Product))
    (ed : Edge) (v : Product) :
  path_ids (mkPath u (hs ++ [(ed, v)])) = (id u :: hop_ids hs) ++ [id v].
Proof.
  unfold path_ids. cbn [from hops]. fold (hop_ids (hs ++ [(ed, v)])).
  now rewrite hop_ids_app.
Qed.

Section Levels.

Variable g : GraphFrame.
Variable fromExpr : Product -> bool.

(** Iteration 0 builds the walks of one hop on which no id repeats. *)
Lemma in_first_paths (p : Path) :
  In p (first_paths (find_a_e_b g) fromExpr) <-> level g fromExpr 1 p.
Proof.
  unfold first_paths. rewrite in_map_iff. split.
  - intros (m & <- & H). rewrite !filter_In in H.
    destruct H as [[Hm Hf] Hne]. destruct m as [va ed vb]. cbn in *.
    pose proof (a2b_vertices g _ Hm) as [Ha Hb]. cbn in Ha, Hb.
    repeat split; cbn; auto.
    repeat constructor; cbn; [|tauto].
    intros [E|[]].
    rewrite E, String.eqb_refl in Hne. discriminate.
  - intros [(Hin & Hf & Hp) [Hlen Hnd]]. destruct p as [u hs].
    cbn in *. destruct hs as [|[ed v] [|? ?]]; try discriminate.
    cbn in Hp. destruct Hp as [Hm _].
    exists (mkMotif u ed v). split; [reflexivity|].
    rewrite !filter_In. cbn. repeat split; auto.
    unfold path_ids in Hnd. cbn in Hnd.
    destruct (String.eqb_spec (id u) (id v)) as [E|]; [|reflexivity].
    inversion Hnd as [|? ? Hx _]; subst. exfalso. apply Hx. now left.
Qed.

(** A later iteration builds the walks of one more hop. *)
Lemma in_next_paths (k : nat) (paths : list Path) :
  (forall p, In p paths <-> level g fromExpr (S k) p) ->
  forall p, In p (filter previousVertexChecks
                         (join_next (find_a_e_b g) paths)) <->
            level g fromExpr (S (S k)) p.
Proof.
  intros Hpaths p'. rewrite filter_In. unfold join_next.
  rewrite in_flat_map. split.
  - intros [(p & Hp & Hext) Hchk]. apply in_map_iff in Hext.
    destruct Hext as (m & <- & Hm). apply filter_In in Hm.
    destruct Hm as [Hm Hjoin]. apply String.eqb_eq in Hjoin.
    apply Hpaths in Hp. destruct Hp as [(Hin & Hf & Hpath) [Hlen Hnd]].
    destruct p as [u hs]. cbn [from hops] in *.
    destruct (exists_last (l := hs)) as (hs0 & [ed w] & ->).
    { intros ->. discriminate. }
    rewrite end_vertex_end_of in Hjoin. cbn [from hops] in Hjoin.
    rewrite end_of_snoc in Hjoin.
    destruct m as [va ed' vb]. cbn [motif_a motif_e motif_b] in *.
    unfold extend in *. cbn [from hops motif_a motif_e motif_b] in *.
    rewrite set_last_snoc in *.
    apply is_path_app in Hpath. destruct Hpath as [Hp0 [Hlast _]].
    pose proof (a2b_vertices g _ Hm) as [Hva Hvb]. cbn in Hva, Hvb.
    pose proof (a2b_vertices g _ Hlast) as [Hprev _]. cbn in Hprev.
    assert (Hlast' : In (mkMotif (end_of u hs0) ed va) (find_a_e_b g)).
    { apply (a2b_by_id g _ (end_of u hs0) va Hlast); cbn; auto. }
    repeat split; cbn [from hops].
    + exact Hin.
    + exact Hf.
    + apply is_path_app. split.
      * apply is_path_app. split; [exact Hp0|]. cbn. auto.
      * rewrite end_of_snoc. cbn. auto.
    + rewrite !length_app in *. cbn in *. lia.
    + rewrite path_ids_snoc. apply NoDup_snoc.
      rewrite path_ids_snoc in Hnd. split.
      * rewrite hop_ids_app. cbn [hop_ids map snd]. rewrite <- Hjoin.
        exact Hnd.
      * now apply previousVertexChecks_snoc in Hchk.
  - intros [(Hin & Hf & Hpath) [Hlen Hnd]].
    destruct p' as [u hs]. cbn [from hops] in *.
    destruct (exists_last (l := hs)) as (hs1 & [ed2 v2] & ->).
    { intros ->. discriminate. }
    destruct (exists_last (l := hs1)) as (hs0 & [ed1 v1] & ->).
    { intros ->. discriminate. }
    apply is_path_app in Hpath. destruct Hpath as [Hp1 [Hm2 _]].
    rewrite end_of_snoc in Hm2.
    rewrite path_ids_snoc in Hnd. apply NoDup_snoc in Hnd.
    destruct Hnd as [Hnd1 Hnew].
    split.
    + exists (mkPath u (hs0 ++ [(ed1, v1)])). split.
      * apply Hpaths. repeat split; cbn [from hops]; auto.
        rewrite !length_app in *. cbn in *. lia.
      * apply in_map_iff. exists (mkMotif v1 ed2 v2). split.
        -- unfold extend. cbn [from hops motif_a motif_e motif_b].
           now rewrite set_last_snoc.
        -- apply filter_In. split; [exact Hm2|].
           rewrite end_vertex_end_of. cbn [from hops motif_a].
           rewrite end_of_snoc. apply String.eqb_refl.
    + now apply previousVertexChecks_snoc.
Qed.

End Levels.

(* --------------------------------------------------------------------- *)
(** ** The search loop *)
(* --------------------------------------------------------------------- *)

Section Search.

Variable g : GraphFrame.
Variables fromExpr toExpr : Product -> bool.

(** The [from] expression of the notebook looks at the id only. *)
Hypothesis from_by_id : forall u v, id u = id v -> fromExpr u = fromExpr v.

(** The loop stops at the first iteration whose paths reach a [to] vertex
    and returns exactly those; it returns nothing when no iteration within
    the bound has such a path. *)
Lemma bfs_loop_spec (remaining : nat) :
  forall (iter : nat) (paths : list Path),
    (iter = 0%nat \/ forall p, In p paths <-> level g fromExpr iter p) ->
    (bfs_loop (find_a_e_b g) fromExpr toExpr remaining iter paths = [] /\
     forall j p, (iter < j <= iter + remaining)%nat ->
                 ~ goal g fromExpr toExpr j p) \/
    (exists j, (iter < j <= iter + remaining)%nat /\
       bfs_loop (find_a_e_b g) fromExpr toExpr remaining iter paths <> [] /\
       (forall p,
           In p (bfs_loop (find_a_e_b g) fromExpr toExpr remaining iter paths)
           <-> goal g fromExpr toExpr j p) /\
       forall j' p, (iter < j' < j)%nat -> ~ goal g fromExpr toExpr j' p).
Proof.
  induction remaining as [|remaining IH]; intros iter paths Hinv.
  - left. split; [reflexivity|]. intros j p Hj. lia.
  - cbn [bfs_loop].
    set (paths' := next_paths (find_a_e_b g) fromExpr iter paths).
    assert (H' : forall p, In p paths' <-> level g fromExpr (S iter) p).
    { subst paths'. destruct iter as [|k]; cbn [next_paths].
      - apply in_first_paths.
      - destruct Hinv as [E|Hinv]; [discriminate|].
        now apply in_next_paths. }
    assert (Hfound : forall p,
               In p (filter (fun p => toExpr (end_vertex p)) paths') <->
               goal g fromExpr toExpr (S iter) p).
    { intros p. rewrite filter_In, H'. reflexivity. }
    destruct (filter (fun p => toExpr (end_vertex p)) paths')
      as [|p0 found] eqn:E.
    + destruct (IH (S iter) paths' (or_intror H'))
        as [[Hr Hno]|(j & Hj & Hne & Hin & Hno)].
      * left. split; [exact Hr|]. intros j p Hj Hg.
        destruct (Nat.eq_dec j (S iter)) as [->|Hne].
        -- now apply Hfound in Hg.
        -- apply (Hno j p); [lia|exact Hg].
      * right. exists j. split; [lia|]. split; [exact Hne|].
        split; [exact Hin|]. intros j' p Hj' Hg.
        destruct (Nat.eq_dec j' (S iter)) as [->|Hne'].
        -- now apply Hfound in Hg.
        -- apply (Hno j' p); [lia|exact Hg].
    + right. exists (S iter). split; [lia|]. split; [discriminate|].
      split; [exact Hfound|]. intros j' p Hj'. lia.
Qed.

(* --------------------------------------------------------------------- *)
(** ** Walks and walks without repeated ids *)
(* --------------------------------------------------------------------- *)





(* --------------------------------------------------------------------- *)
(** ** The search *)
(* --------------------------------------------------------------------- *)


Lemma in_fromEqualsToDF (v : Product) :
  In v (filter toExpr (filter fromExpr (vertices g))) <->
  goal g fromExpr toExpr 0 (mkPath v []).
Proof.
  rewrite !filter_In. unfold goal, level, walk. cbn. split.
  - intros [[Hin Hf] Hto]. repeat split; auto.
    repeat constructor. tauto.
  - tauto.
Qed.



(** What [bfs_run] returns: the [from] vertices that are [to] vertices when
    there are some, the result of the loop otherwise. *)
Lemma bfs_cases (maxPathLength : Z) :
  (bfs_run g fromExpr toExpr maxPathLength = [] /\
   (filter fromExpr (vertices g) = [] \/ filter toExpr (vertices g) = []))
  \/
  (filter toExpr (filter fromExpr (vertices g)) <> [] /\
   bfs_run g fromExpr toExpr maxPathLength =
     map (fun v => mkPath v [])
         (filter toExpr (filter fromExpr (vertices g))))
  \/
  (filter toExpr (filter fromExpr (vertices g)) = [] /\
   bfs_run g fromExpr toExpr maxPathLength =
     bfs_loop (find_a_e_b g) fromExpr toExpr (Z.to_nat maxPathLength) 0 []).
Proof.
  unfold bfs_run.
  destruct (filter fromExpr (vertices g)) as [|u fromDF] eqn:Ef;
    [left; auto|].
  destruct (filter toExpr (vertices g)) as [|w toDF] eqn:Et;
    [left; auto|].
  destruct (filter toExpr (u :: fromDF)) as [|x both] eqn:Eb.
  - right. right. auto.
  - right. left. split; [discriminate|reflexivity].
Qed.



End Search.

(* --------------------------------------------------------------------- *)
(** ** The search cells *)
(* --------------------------------------------------------------------- *)










(** The chain 1 -> 2 -> 3 -> 4, whose only product of another group is
    three hops from product A: not found with bound 2, found with bound
    3. *)
Example paths_chain_bound_2 (spark : SparkSession) :
  paths spark chain_vertices chain_edges "A" 2 = Return [].
Proof. vm_compute. reflexivity. Qed.

Example paths_chain_bound_3 (spark : SparkSession) :
  paths spark chain_vertices chain_edges "A" 3 =
  Return [mkPath (product "1" "A" "Book")
                 [(edge 1 2, product "2" "B" "Book");
                  (edge 2 3, product "3" "C" "Book");
                  (edge 3 4, product "4" "D" "DVD")]].
Proof. vm_compute. reflexivity. Qed.

(** A title that no product has makes [collect()[0]] raise. *)
Example paths_unknown_title (spark : SparkSession) :
  paths spark chain_vertices chain_edges "Z" 3 = Raise IndexError.
Proof. vm_compute. reflexivity. Qed.



(* --------------------------------------------------------------------- *)
(** ** Q2: empty snapshots, order, growth and NULL rows *)
(* --------------------------------------------------------------------- *)

Lemma no_member_nil {A : Type} (l : list A) :
  (forall x, ~ In x l) -> l = [].
Proof.
  destruct l as [|x l]; [reflexivity|].
  intros H. exfalso. apply (H x). now left.
Qed.

(** X1: when one of the four snapshots has no row, the result has no row
    either. *)
Theorem consistent_bidirectional_edges_empty_snapshot
    (em lm may june : list Edge) :
  In [] [em; lm; may; june] ->
  consistent_bidirectional_edges em lm may june = [].
Proof.
  intros Hnil. apply no_member_nil. intros r Hr.
  apply in_consistent_bidirectional_edges in Hr.
  destruct Hr as (u & v & _ & H).
  destruct (H [] Hnil) as [Hin _]. exact Hin.
Qed.

Lemma consistent_bidirectional_edges_empty_snapshot_witness :
  In [] [snapshot_both; snapshot_both; []; snapshot_one_way] /\
  consistent_bidirectional_edges
    snapshot_both snapshot_both [] snapshot_one_way = [].
Proof.
  assert (H : In [] [snapshot_both; snapshot_both; []; snapshot_one_way])
    by (cbn; auto).
  split; [exact H|].
  exact (consistent_bidirectional_edges_empty_snapshot
           snapshot_both snapshot_both [] snapshot_one_way H).
Defined.

(** X2: the rows of the result do not depend on the order in which the
    four snapshots are intersected. *)
Theorem consistent_bidirectional_edges_any_order
    (em lm may june a b c d : list Edge) :
  Permutation [em; lm; may; june] [a; b; c; d] ->
  forall r, In r (consistent_bidirectional_edges em lm may june) <->
            In r (consistent_bidirectional_edges a b c d).
Proof.
  intros Hp r. rewrite !in_consistent_bidirectional_edges.
  split; intros (u & v & -> & H); exists u, v; (split; [reflexivity|]);
    intros t Ht; apply H.
  - apply (Permutation_in _ (Permutation_sym Hp) Ht).
  - apply (Permutation_in _ Hp Ht).
Qed.

Lemma consistent_bidirectional_edges_any_order_witness :
  Permutation [snapshot_both; snapshot_one_way; snapshot_both; snapshot_both]
              [snapshot_both; snapshot_both; snapshot_both; snapshot_one_way]
  /\
  forall r,
    In r (consistent_bidirectional_edges
            snapshot_both snapshot_one_way snapshot_both snapshot_both) <->
    In r (consistent_bidirectional_edges
            snapshot_both snapshot_both snapshot_both snapshot_one_way).
Proof.
  assert (H : Permutation
                [snapshot_both; snapshot_one_way; snapshot_both; snapshot_both]
                [snapshot_both; snapshot_both; snapshot_both; snapshot_one_way]).
  { apply perm_skip.
    eapply perm_trans; [apply perm_swap|]. apply perm_skip. apply perm_swap. }
  split; [exact H|].
  exact (consistent_bidirectional_edges_any_order _ _ _ _ _ _ _ _ H).
Defined.

(** X3: rows added to the snapshots never remove a row from the result;
    so neither the order of the rows of a snapshot nor their repetition
    matters. *)
Theorem consistent_bidirectional_edges_monotone
    (em lm may june em' lm' may' june' : list Edge) :
  incl em em' -> incl lm lm' -> incl may may' -> incl june june' ->
  incl (consistent_bidirectional_edges em lm may june)
       (consistent_bidirectional_edges em' lm' may' june').
Proof.
  intros H1 H2 H3 H4 r Hr.
  apply in_consistent_bidirectional_edges in Hr.
  apply in_consistent_bidirectional_edges.
  destruct Hr as (u & v & -> & H). exists u, v. split; [reflexivity|].
  intros t [<-|[<-|[<-|[<-|[]]]]].
  - destruct (H em) as [Ha Hb]; [cbn; auto|]. split; now apply H1.
  - destruct (H lm) as [Ha Hb]; [cbn; auto|]. split; now apply H2.
  - destruct (H may) as [Ha Hb]; [cbn; auto 6|]. split; now apply H3.
  - destruct (H june) as [Ha Hb]; [cbn; auto 6|]. split; now apply H4.
Qed.

Lemma consistent_bidirectional_edges_monotone_witness :
  incl snapshot_one_way snapshot_both /\
  incl (consistent_bidirectional_edges
          snapshot_one_way snapshot_one_way snapshot_one_way snapshot_one_way)
       (consistent_bidirectional_edges
          snapshot_both snapshot_both snapshot_both snapshot_both).
Proof.
  assert (H1 : incl snapshot_one_way snapshot_both).
  { intros r Hr. cbn in Hr. cbn. tauto. }
  split; [exact H1|].
  exact (consistent_bidirectional_edges_monotone _ _ _ _ _ _ _ _
           H1 H1 H1 H1).
Defined.

Lemma flat_map_filter_nil {A B : Type} (f : A -> list B) (p : A -> bool)
    (l : list A) :
  (forall x, p x = false -> f x = []) ->
  flat_map f (filter p l) = flat_map f l.
Proof.
  intros H. induction l as [|x l IH]; [reflexivity|].
  cbn. destruct (p x) eqn:E; cbn; rewrite IH; [reflexivity|].
  now rewrite (H x E).
Qed.

Lemma swapped_on_incomplete_l (e1 e2 : Edge) :
  complete e1 = false -> sql_holds (swapped_on e1 e2) = false.
Proof.
  destruct e1 as [[a|] [b|]], e2 as [[c|] [d|]]; cbn; try discriminate;
    intros _; unfold swapped_on; cbn;
    try reflexivity;
    repeat match goal with
           | |- context [?x =? ?y] => destruct (x =? y)
           end; reflexivity.
Qed.

Lemma swapped_on_incomplete_r (e1 e2 : Edge) :
  complete e2 = false -> sql_holds (swapped_on e1 e2) = false.
Proof.
  destruct e1 as [[a|] [b|]], e2 as [[c|] [d|]]; cbn; try discriminate;
    intros _; unfold swapped_on; cbn;
    try reflexivity;
    repeat match goal with
           | |- context [?x =? ?y] => destruct (x =? y)
           end; reflexivity.
Qed.

(** The join sees only the rows without NULL. *)
Lemma self_join_complete (t : list Edge) :
  self_join (filter complete t) = self_join t.
Proof.
  unfold self_join.
  rewrite flat_map_filter_nil.
  - apply flat_map_ext. intros e1. apply flat_map_filter_nil.
    intros e2 H. now rewrite swapped_on_incomplete_r.
  - intros e1 H. induction (filter complete t) as [|e2 l IH];
      [reflexivity|].
    cbn. now rewrite swapped_on_incomplete_l, IH.
Qed.

(** X4: rows with a NULL node id, as the reader makes them from malformed
    lines, have no effect on the result: it is the result for the
    snapshots without those rows. *)
Theorem consistent_bidirectional_edges_ignores_null_rows
    (em lm may june : list Edge) :
  consistent_bidirectional_edges
    (filter complete em) (filter complete lm)
    (filter complete may) (filter complete june) =
  consistent_bidirectional_edges em lm may june.
Proof.
  unfold consistent_bidirectional_edges, bidirectional_edges_early_march,
    bidirectional_edges_late_march, bidirectional_edges_may,
    bidirectional_edges_june, bidirectional_edges.
  now rewrite !self_join_complete.
Qed.

(* --------------------------------------------------------------------- *)
(** ** Q3: the start title, the bound, and the edges that count *)
(* --------------------------------------------------------------------- *)

(** X5: when no product has the start title, a title that is pasted as
    one literal, the cell raises [IndexError] at [collect()[0][0]];
    no search is run. *)
Theorem paths_unknown_title_raises (spark : SparkSession)
    (node_metadata_df : list Product) (june_df : list Edge)
    (start_title : string) (maxPathLength : Z) :
  pasted start_title = Literal ->
  (forall v, In v node_metadata_df -> title v <> start_title) ->
  paths spark node_metadata_df june_df start_title maxPathLength =
  Raise IndexError.
Proof.
  intros Hplain H. unfold paths, title_filter. rewrite Hplain.
  cbn [bind vertices].
  assert (E : filter (title_is start_title) node_metadata_df = []).
  { apply no_member_nil. intros v Hv. apply filter_In in Hv.
    destruct Hv as [Hin Ht]. apply String.eqb_eq in Ht.
    now apply (H v). }
  now rewrite E.
Qed.

Lemma paths_unknown_title_raises_witness :
  pasted "Z" = Literal /\
  (forall v, In v chain_vertices -> title v <> "Z"%string) /\
  paths session chain_vertices chain_edges "Z" 3 = Raise IndexError.
Proof.
  assert (Hplain : pasted "Z" = Literal) by reflexivity.
  assert (H : forall v, In v chain_vertices -> title v <> "Z"%string).
  { intros v Hv. cbn in Hv.
    destruct Hv as [<-|[<-|[<-|[<-|[]]]]]; discriminate. }
  split; [exact Hplain|]. split; [exact H|].
  exact (paths_unknown_title_raises session chain_vertices chain_edges "Z" 3
           Hplain H).
Defined.



(** A cell that returns has parsed its three filters, found a start
    product and run the search with a bound that is not negative. *)
Lemma paths_returns (spark : SparkSession)
    (node_metadata_df : list Product) (june_df : list Edge)
    (start_title : string) (maxPathLength : Z) (rows : list Path) :
  paths spark node_metadata_df june_df start_title maxPathLength =
    Return rows ->
  exists fromExpr toExpr,
    0 <= maxPathLength /\
    rows = limit 1 (bfs_run (mkGraphFrame node_metadata_df june_df)
                            fromExpr toExpr maxPathLength) /\
    forall L, 0 <= L ->
      paths spark node_metadata_df june_df start_title L =
      Return (limit 1 (bfs_run (mkGraphFrame node_metadata_df june_df)
                               fromExpr toExpr L)).
Proof.
  unfold paths. cbn [vertices].
  destruct (title_filter spark start_title) as [title_expr|]; [|discriminate].
  cbn [bind].
  destruct (filter title_expr node_metadata_df) as [|A rest];
    [discriminate|].
  cbn [map collect_0 bind].
  destruct (id_filter spark (id A)) as [fromExpr|]; [|discriminate].
  destruct (group_filter spark (group A)) as [toExpr|]; [|discriminate].
  cbn [bind]. unfold bfs.
  destruct (Z.ltb_spec maxPathLength 0) as [|Hpos]; [discriminate|].
  cbn [bind]. intros [= <-]. exists fromExpr, toExpr.
  split; [exact Hpos|]. split; [reflexivity|].
  intros L HL. destruct (Z.ltb_spec L 0) as [|_]; [lia|reflexivity].
Qed.



(** What the search returns lies on one level, without repeated ids. *)
Lemma bfs_one_level (g : GraphFrame) (fromExpr toExpr : Product -> bool)
    (maxPathLength : Z) :
  exists j, forall p, In p (bfs_run g fromExpr toExpr maxPathLength) ->
                      goal g fromExpr toExpr j p.
Proof.
  destruct (bfs_cases g fromExpr toExpr maxPathLength)
    as [[E _]|[[Hne E]|[Hnil E]]]; rewrite E.
  - exists 0%nat. intros p [].
  - exists 0%nat. intros p Hp. apply in_map_iff in Hp.
    destruct Hp as (v & <- & Hv). now apply in_fromEqualsToDF.
  - destruct (bfs_loop_spec g fromExpr toExpr (Z.to_nat maxPathLength) 0 []
                (or_introl eq_refl))
      as [[Hr _]|(j & _ & _ & Hspec & _)].
    + exists 0%nat. rewrite Hr. intros p [].
    + exists j. intros p Hp. now apply Hspec.
Qed.

(** X7: no vertex id occurs twice on a returned path: the search never
    comes back to a product it has left, the start included. *)
Theorem paths_no_repeated_id (spark : SparkSession)
    (node_metadata_df : list Product) (june_df : list Edge)
    (start_title : string) (maxPathLength : Z)
    (rows : list Path) (p : Path) :
  paths spark node_metadata_df june_df start_title maxPathLength =
    Return rows ->
  In p rows ->
  NoDup (path_ids p).
Proof.
  intros H Hp.
  destruct (paths_returns _ _ _ _ _ _ H)
    as (fromExpr & toExpr & _ & -> & _).
  apply (In_firstn 1) in Hp.
  destruct (bfs_one_level (mkGraphFrame node_metadata_df june_df)
              fromExpr toExpr maxPathLength) as [j Hj].
  destruct (Hj p Hp) as [[_ [_ Hnd]] _]. exact Hnd.
Qed.

Lemma paths_no_repeated_id_witness :
  paths session chain_vertices chain_edges "A" 3 =
    Return [mkPath (product "1" "A" "Book")
                   [(edge 1 2, product "2" "B" "Book");
                    (edge 2 3, product "3" "C" "Book");
                    (edge 3 4, product "4" "D" "DVD")]] /\
  In (mkPath (product "1" "A" "Book")
             [(edge 1 2, product "2" "B" "Book");
              (edge 2 3, product "3" "C" "Book");
              (edge 3 4, product "4" "D" "DVD")])
     [mkPath (product "1" "A" "Book")
             [(edge 1 2, product "2" "B" "Book");
              (edge 2 3, product "3" "C" "Book");
              (edge 3 4, product "4" "D" "DVD")]] /\
  NoDup (path_ids (mkPath (product "1" "A" "Book")
                          [(edge 1 2, product "2" "B" "Book");
                           (edge 2 3, product "3" "C" "Book");
                           (edge 3 4, product "4" "D" "DVD")])).
Proof.
  assert (H : paths session chain_vertices chain_edges "A" 3 =
    Return [mkPath (product "1" "A" "Book")
                   [(edge 1 2, product "2" "B" "Book");
                    (edge 2 3, product "3" "C" "Book");
                    (edge 3 4, product "4" "D" "DVD")]])
    by (vm_compute; reflexivity).
  assert (Hin : In (mkPath (product "1" "A" "Book")
             [(edge 1 2, product "2" "B" "Book");
              (edge 2 3, product "3" "C" "Book");
              (edge 3 4, product "4" "D" "DVD")])
     [mkPath (product "1" "A" "Book")
             [(edge 1 2, product "2" "B" "Book");
              (edge 2 3, product "3" "C" "Book");
              (edge 3 4, product "4" "D" "DVD")]]) by (left; reflexivity).
  split; [exact H|]. split; [exact Hin|].
  exact (paths_no_repeated_id session chain_vertices chain_edges "A" 3 _ _
           H Hin).
Defined.

(** X8: all the paths the search finds have the same number of hops, so
    the level reported does not depend on the row that [limit(1)] keeps. *)
Theorem bfs_paths_same_length
    (g : GraphFrame) (fromExpr toExpr : Product -> bool)
    (maxPathLength : Z) (rows : list Path) (p q : Path) :
  bfs g fromExpr toExpr maxPathLength = Return rows ->
  In p rows -> In q rows ->
  path_length p = path_length q.
Proof.
  unfold bfs. destruct (maxPathLength <? 0); [discriminate|].
  intros [= <-] Hp Hq.
  destruct (bfs_one_level g fromExpr toExpr maxPathLength) as [j Hj].
  destruct (Hj p Hp) as [[_ [Hlp _]] _].
  destruct (Hj q Hq) as [[_ [Hlq _]] _].
  unfold path_length. now rewrite Hlp, Hlq.
Qed.

(** In the diamond the search from product 1 finds two paths, one over
    product 2 and one over product 3. *)
Lemma bfs_paths_same_length_witness :
  bfs (mkGraphFrame diamond_vertices diamond_edges)
      (id_is_literal "1") (group_differs "Book") 3 =
    Return [mkPath (product "1" "A" "Book")
                   [(edge 1 2, product "2" "B" "Book");
                    (edge 2 4, product "4" "D" "DVD")];
            mkPath (product "1" "A" "Book")
                   [(edge 1 3, product "3" "C" "Book");
                    (edge 3 4, product "4" "D" "DVD")]] /\
  path_length (mkPath (product "1" "A" "Book")
                      [(edge 1 2, product "2" "B" "Book");
                       (edge 2 4, product "4" "D" "DVD")]) =
  path_length (mkPath (product "1" "A" "Book")
                      [(edge 1 3, product "3" "C" "Book");
                       (edge 3 4, product "4" "D" "DVD")]).
Proof.
  assert (H : bfs (mkGraphFrame diamond_vertices diamond_edges)
      (id_is_literal "1") (group_differs "Book") 3 =
    Return [mkPath (product "1" "A" "Book")
                   [(edge 1 2, product "2" "B" "Book");
                    (edge 2 4, product "4" "D" "DVD")];
            mkPath (product "1" "A" "Book")
                   [(edge 1 3, product "3" "C" "Book");
                    (edge 3 4, product "4" "D" "DVD")]])
    by (vm_compute; reflexivity).
  split; [exact H|].
  exact (bfs_paths_same_length _ _ _ _ _ _ _ H
           (or_introl eq_refl) (or_intror (or_introl eq_refl))).
Defined.

Lemma existsb_false_filter_nil {A : Type} (f : A -> bool) (l : list A) :
  existsb f l = false -> filter f l = [].
Proof.
  induction l as [|x l IH]; [reflexivity|].
  cbn. destruct (f x); cbn; [discriminate|exact IH].
Qed.

Lemma flat_map_nil {A B : Type} (f : A -> list B) (l : list A) :
  (forall x, f x = []) -> flat_map f l = [].
Proof.
  intros H. induction l as [|x l IH]; [reflexivity|].
  cbn. now rewrite H, IH.
Qed.

(** The motif table is built from the usable edges only. *)
Lemma find_a_e_b_usable (vs : list Product) (es : list Edge) :
  find_a_e_b (mkGraphFrame vs (filter (usable vs) es)) =
  find_a_e_b (mkGraphFrame vs es).
Proof.
  unfold find_a_e_b. cbn [vertices edges].
  apply flat_map_filter_nil. intros ed H. unfold usable in H.
  apply andb_false_iff in H. destruct H as [H|H].
  - now rewrite (existsb_false_filter_nil _ _ H).
  - rewrite (existsb_false_filter_nil _ _ H). now apply flat_map_nil.
Qed.

(** X9: an edge row with a NULL end, or with an end that is the id of no
    product row, has no effect on the search: the cell returns what it
    returns without those rows. *)
Theorem paths_ignores_unusable_edges (spark : SparkSession)
    (node_metadata_df : list Product) (june_df : list Edge)
    (start_title : string) (maxPathLength : Z) :
  paths spark node_metadata_df (filter (usable node_metadata_df) june_df)
        start_title maxPathLength =
  paths spark node_metadata_df june_df start_title maxPathLength.
Proof.
  unfold paths, bfs, bfs_run. cbn [vertices].
  now rewrite find_a_e_b_usable.
Qed.

(* --------------------------------------------------------------------- *)
(** ** Q1: what the groups count *)
(* --------------------------------------------------------------------- *)

Lemma lookup_count_bump (k k' : string) (G : list RatingCount) :
  lookup_count k' (bump k G) =
  lookup_count k' G + (if String.eqb k k' then 1 else 0).
Proof.
  induction G as [|g G IH]; cbn.
  - destruct (String.eqb k k'); reflexivity.
  - destruct (String.eqb_spec (rating g) k) as [E|NE]; cbn.
    + rewrite E. destruct (String.eqb k k'); lia.
    + destruct (String.eqb_spec (rating g) k') as [E'|NE'].
      * destruct (String.eqb_spec k k'); [congruence|lia].
      * exact IH.
Qed.

Lemma keys_bump (k x : string) (G : list RatingCount) :
  In x (map rating (bump k G)) <-> x = k \/ In x (map rating G).
Proof.
  induction G as [|g G IH]; cbn.
  - intuition.
  - destruct (String.eqb_spec (rating g) k) as [E|NE]; cbn.
    + rewrite E. intuition.
    + rewrite IH. intuition.
Qed.

Lemma NoDup_bump (k : string) (G : list RatingCount) :
  NoDup (map rating G) -> NoDup (map rating (bump k G)).
Proof.
  induction G as [|g G IH]; cbn; intros H.
  - repeat constructor. tauto.
  - inversion H as [|? ? Hx Hl]; subst.
    destruct (String.eqb_spec (rating g) k) as [E|NE]; cbn.
    + rewrite <- E. now constructor.
    + constructor; [|now apply IH].
      rewrite keys_bump. intros [E|Hin]; [congruence|contradiction].
Qed.

Lemma in_by_lookup (G : list RatingCount) :
  NoDup (map rating G) ->
  forall g, In g G <->
            In (rating g) (map rating G) /\
            count g = lookup_count (rating g) G.
Proof.
  induction G as [|g0 G IH]; cbn; intros H g.
  - tauto.
  - inversion H as [|? ? Hx Hl]; subst.
    destruct (String.eqb_spec (rating g0) (rating g)) as [E|NE].
    + split.
      * intros [->|Hin]; [tauto|].
        exfalso. apply Hx. rewrite E. now apply in_map.
      * intros [_ Hc]. left. destruct g0, g. cbn in *. congruence.
    + rewrite (IH Hl g). split.
      * intros [->|[Hin Hc]]; [congruence|tauto].
      * intros [[E|Hin] Hc]; [congruence|tauto].
Qed.

Lemma NoDup_groupBy_count (keys : list string) :
  NoDup (map rating (groupBy_count keys)).
Proof.
  induction keys as [|k keys IH]; [constructor|].
  now apply NoDup_bump.
Qed.

Lemma keys_groupBy_count (keys : list string) (x : string) :
  In x (map rating (groupBy_count keys)) <-> In x keys.
Proof.
  induction keys as [|k keys IH]; [reflexivity|].
  change (groupBy_count (k :: keys)) with (bump k (groupBy_count keys)).
  rewrite keys_bump, IH. cbn. intuition.
Qed.

Lemma lookup_groupBy_count (keys : list string) (x : string) :
  lookup_count x (groupBy_count keys) =
  Z.of_nat (count_occ string_dec keys x).
Proof.
  induction keys as [|k keys IH]; [reflexivity|].
  change (groupBy_count (k :: keys)) with (bump k (groupBy_count keys)).
  rewrite lookup_count_bump, IH. cbn [count_occ].
  destruct (string_dec k x) as [E|NE].
  - subst. rewrite String.eqb_refl. lia.
  - destruct (String.eqb_spec k x); [contradiction|lia].
Qed.

(** The groups are the distinct keys, each with the number of its
    occurrences. *)
Lemma in_groupBy_count (keys : list string) (g : RatingCount) :
  In g (groupBy_count keys) <->
  In (rating g) keys /\
  count g = Z.of_nat (count_occ string_dec keys (rating g)).
Proof.
  rewrite (in_by_lookup _ (NoDup_groupBy_count keys)).
  now rewrite keys_groupBy_count, lookup_groupBy_count.
Qed.

(** The cell always returns: its rows are the groups, each with its share
    of the total, sorted. *)
Lemma rating_percentages_df_returns (node_metadata_df : list Product)
    (P : string) :
  exists total,
    agg_sum (rating_counts_df node_metadata_df P) = [total] /\
    rating_percentages_df node_metadata_df P =
      Return (orderBy_rating_desc
                (map (with_percentage total)
                     (rating_counts_df node_metadata_df P))).
Proof.
  rewrite rating_percentages_df_unfold.
  destruct (rating_counts_df node_metadata_df P) as [|g G] eqn:E.
  - exists None. split; reflexivity.
  - exists (Some (fold_right Z.add 0 (map count (g :: G)))).
    split; reflexivity.
Qed.

Lemma in_orderBy_rating_desc (df : list RatingPercentage)
    (r : RatingPercentage) :
  In r (orderBy_rating_desc df) <-> In r df.
Proof.
  split; apply Permutation_in;
    [|apply Permutation_sym]; apply orderBy_rating_desc_perm.
Qed.

(** X10: the cell never raises; each returned row is a rating that some
    exploded review has, with the number of reviews that have it, and
    every rating of a review has its row. *)
Theorem rating_percentages_counts (node_metadata_df : list Product)
    (P : string) :
  exists rows,
    rating_percentages_df node_metadata_df P = Return rows /\
    (forall r, In r rows ->
       In (pct_rating r) (ratings_of node_metadata_df P) /\
       pct_count r =
         Z.of_nat (count_occ string_dec (ratings_of node_metadata_df P)
                             (pct_rating r)) /\
       0 < pct_count r) /\
    (forall k, In k (ratings_of node_metadata_df P) ->
       exists r, In r rows /\ pct_rating r = k).
Proof.
  destruct (rating_percentages_df_returns node_metadata_df P)
    as (total & _ & Hret).
  eexists. split; [exact Hret|]. split.
  - intros r Hr. apply (proj1 (in_orderBy_rating_desc _ _)) in Hr.
    apply in_map_iff in Hr. destruct Hr as (g & <- & Hg).
    unfold rating_counts_df in Hg. apply in_groupBy_count in Hg.
    destruct Hg as [Hin Hc]. cbn [with_percentage pct_rating pct_count].
    fold (ratings_of node_metadata_df P) in Hin, Hc.
    repeat split; try assumption.
    rewrite Hc. apply (count_occ_In string_dec) in Hin. lia.
  - intros k Hk.
    exists (with_percentage total
              (mkRatingCount k
                 (Z.of_nat (count_occ string_dec
                              (ratings_of node_metadata_df P) k)))).
    split; [|reflexivity].
    apply (proj2 (in_orderBy_rating_desc _ _)), in_map.
    unfold rating_counts_df.
    apply in_groupBy_count. cbn. fold (ratings_of node_metadata_df P).
    tauto.
Qed.

(* --------------------------------------------------------------------- *)
(** ** Q1: the order of the rows *)
(* --------------------------------------------------------------------- *)

Lemma ascii_compare_N (x y : ascii) :
  Ascii.compare x y = N.compare (N_of_ascii x) (N_of_ascii y).
Proof. reflexivity. Qed.

Lemma string_leb_trans (a b c : string) :
  String.leb a b = true -> String.leb b c = true -> String.leb a c = true.
Proof.
  revert b c. unfold String.leb.
  induction a as [|x a IH]; intros [|y b] [|z c]; cbn;
    try congruence.
  rewrite !ascii_compare_N.
  destruct (N.compare_spec (N_of_ascii x) (N_of_ascii y)) as [E1|L1|G1];
    destruct (N.compare_spec (N_of_ascii y) (N_of_ascii z)) as [E2|L2|G2];
    try congruence.
  - rewrite E1, E2, N.compare_refl. apply IH.
  - rewrite E1. apply N.compare_lt_iff in L2. now rewrite L2.
  - rewrite <- E2. apply N.compare_lt_iff in L1. now rewrite L1.
  - assert (L : (N_of_ascii x < N_of_ascii z)%N) by lia.
    apply N.compare_lt_iff in L. now rewrite L.
Qed.

Lemma rating_desc_trans (a b c : RatingPercentage) :
  rating_desc a b -> rating_desc b c -> rating_desc a c.
Proof.
  unfold rating_desc. intros H1 H2. now apply (string_leb_trans _ _ _ H2).
Qed.

Lemma insert_desc_sorted (x : RatingPercentage) (l : list RatingPercentage) :
  StronglySorted rating_desc l -> StronglySorted rating_desc (insert_desc x l).
Proof.
  induction l as [|y l IH]; cbn; intros H.
  - repeat constructor.
  - apply StronglySorted_inv in H. destruct H as [Hl Hy].
    destruct (String.leb (pct_rating y) (pct_rating x)) eqn:E.
    + constructor; [now constructor|].
      constructor; [exact E|].
      apply Forall_forall. intros z Hz.
      rewrite Forall_forall in Hy.
      apply (rating_desc_trans x y z); [exact E|now apply Hy].
    + constructor; [now apply IH|].
      apply Forall_forall. intros z Hz.
      apply (Permutation_in _ (insert_desc_perm x l)) in Hz.
      destruct Hz as [<-|Hz].
      * unfold rating_desc.
        destruct (String.leb_total (pct_rating y) (pct_rating x));
          congruence.
      * rewrite Forall_forall in Hy. now apply Hy.
Qed.

Lemma orderBy_rating_desc_sorted (df : list RatingPercentage) :
  StronglySorted rating_desc (orderBy_rating_desc df).
Proof.
  induction df as [|x df IH]; [constructor|].
  now apply insert_desc_sorted.
Qed.

Lemma map_with_percentage_rating (total : option Z) (G : list RatingCount) :
  map pct_rating (map (with_percentage total) G) = map rating G.
Proof. rewrite map_map. reflexivity. Qed.

(** X11: the returned rows are in descending order of their rating
    strings, and no two rows have the same rating. *)
Theorem rating_percentages_sorted_distinct (node_metadata_df : list Product)
    (P : string) :
  exists rows,
    rating_percentages_df node_metadata_df P = Return rows /\
    StronglySorted rating_desc rows /\
    NoDup (map pct_rating rows).
Proof.
  destruct (rating_percentages_df_returns node_metadata_df P)
    as (total & _ & Hret).
  eexists. split; [exact Hret|]. split.
  - apply orderBy_rating_desc_sorted.
  - eapply Permutation_NoDup.
    + apply Permutation_map, Permutation_sym, orderBy_rating_desc_perm.
    + rewrite map_with_percentage_rating. apply NoDup_groupBy_count.
Qed.

(* --------------------------------------------------------------------- *)
(** ** Q1: the size of the percentages *)
(* --------------------------------------------------------------------- *)

Lemma share_bounds (c t : Z) :
  0 < c -> c <= t ->
  (0 < inject_Z c / inject_Z t * 100)%Q /\
  (inject_Z c / inject_Z t * 100 <= 100)%Q.
Proof.
  intros Hc Ht. destruct t as [|p|p]; try lia.
  unfold Qlt, Qle, Qdiv, Qmult, Qinv, inject_Z. cbn.
  rewrite ?Pos.mul_1_r, ?Pos.mul_1_l, ?Z.mul_1_r. split; lia.
Qed.

(** X12: the cell never raises, no percentage is NULL, and every
    percentage is more than 0 and at most 100. *)
Theorem rating_percentages_range (node_metadata_df : list Product)
    (P : string) :
  exists rows,
    rating_percentages_df node_metadata_df P = Return rows /\
    forall r, In r rows ->
      exists q, percentage r = Some q /\ (0 < q)%Q /\ (q <= 100)%Q.
Proof.
  destruct (rating_percentages_df_returns node_metadata_df P)
    as (total & Hagg & Hret).
  eexists. split; [exact Hret|].
  intros r Hr. apply (proj1 (in_orderBy_rating_desc _ _)) in Hr.
  apply in_map_iff in Hr. destruct Hr as (g & <- & Hg).
  pose proof (rating_counts_df_total node_metadata_df P) as Htot.
  assert (Htotal : total = Some (sum_counts
                                   (rating_counts_df node_metadata_df P))).
  { unfold agg_sum in Hagg.
    destruct (rating_counts_df node_metadata_df P); [contradiction|].
    now injection Hagg as <-. }
  unfold rating_counts_df in Hg. apply in_groupBy_count in Hg.
  destruct Hg as [Hin Hc].
  pose proof (count_occ_bound string_dec (rating g)
                (map review_rating
                     (product_21_reviews_df node_metadata_df P))) as Hb.
  apply (count_occ_In string_dec) in Hin.
  assert (Hlen : List.length
                   (map review_rating
                        (product_21_reviews_df node_metadata_df P)) =
                 List.length
                   (explode_reviews (product_21_df node_metadata_df P))).
  { unfold product_21_reviews_df. now rewrite !length_map. }
  set (t := sum_counts (rating_counts_df node_metadata_df P)) in *.
  assert (H0 : 0 < count g) by lia.
  assert (H1 : count g <= t) by lia.
  destruct (share_bounds (count g) t H0 H1) as [Hlo Hhi].
  exists (inject_Z (count g) / inject_Z t * 100)%Q.
  split; [|split; assumption].
  subst total. cbn [with_percentage percentage].
  apply percentage_of_total. lia.
Qed.

(* --------------------------------------------------------------------- *)
(** ** Q1: the order of the rows of the table *)
(* --------------------------------------------------------------------- *)

Lemma filter_perm {A : Type} (keep : A -> bool) (xs ys : list A)
    (H : Permutation xs ys) :
  Permutation (filter keep xs) (filter keep ys).
Proof.
  induction H as [|x l l' _ IH|x y l|l l' l'' _ IH1 _ IH2]; cbn.
  - constructor.
  - destruct (keep x); [now constructor|exact IH].
  - destruct (keep x), (keep y); try apply Permutation_refl. apply perm_swap.
  - now apply (perm_trans IH1).
Qed.

Lemma ratings_of_perm (t t' : list Product) (P : string) :
  Permutation t t' -> Permutation (ratings_of t P) (ratings_of t' P).
Proof.
  intros H. unfold ratings_of, product_21_reviews_df, explode_reviews,
    product_21_df.
  apply Permutation_map, Permutation_map, Permutation_flat_map.
  now apply filter_perm.
Qed.

Lemma groupBy_count_perm (keys keys' : list string) :
  Permutation keys keys' ->
  Permutation (groupBy_count keys) (groupBy_count keys').
Proof.
  intros H. apply NoDup_Permutation.
  - apply (NoDup_map_inv rating), NoDup_groupBy_count.
  - apply (NoDup_map_inv rating), NoDup_groupBy_count.
  - intros g. rewrite !in_groupBy_count.
    rewrite (proj1 (Permutation_count_occ string_dec keys keys') H).
    split; intros [Hin Hc]; (split; [|exact Hc]).
    + apply (Permutation_in _ H Hin).
    + apply (Permutation_in _ (Permutation_sym H) Hin).
Qed.

Lemma sum_counts_perm (G G' : list RatingCount) :
  Permutation G G' -> sum_counts G = sum_counts G'.
Proof.
  unfold sum_counts. induction 1; cbn; lia.
Qed.

Lemma agg_sum_perm (G G' : list RatingCount) :
  Permutation G G' -> agg_sum G = agg_sum G'.
Proof.
  intros H. destruct G as [|g G], G' as [|g' G'].
  - reflexivity.
  - now apply Permutation_nil in H.
  - apply Permutation_sym in H. now apply Permutation_nil in H.
  - unfold agg_sum. f_equal. f_equal. exact (sum_counts_perm _ _ H).
Qed.

Lemma NoDup_map_injective {A B : Type} (f : A -> B) (l : list A) (a b : A) :
  NoDup (map f l) -> In a l -> In b l -> f a = f b -> a = b.
Proof.
  induction l as [|x l IH]; cbn; [tauto|].
  intros H Ha Hb E. inversion H as [|? ? Hx Hl]; subst.
  destruct Ha as [->|Ha], Hb as [->|Hb].
  - reflexivity.
  - exfalso. apply Hx. rewrite E. now apply in_map.
  - exfalso. apply Hx. rewrite <- E. now apply in_map.
  - now apply IH.
Qed.

(** Two sorted arrangements of the same rows are the same list, when the
    order tells the rows apart. *)
Lemma sorted_perm_eq {A : Type} (R : A -> A -> Prop) (l : list A) :
  (forall a b, In a l -> In b l -> R a b -> R b a -> a = b) ->
  StronglySorted R l ->
  forall l', StronglySorted R l' -> Permutation l l' -> l = l'.
Proof.
  induction l as [|a l IH]; intros Hanti Hs l' Hs' Hp.
  - apply Permutation_nil in Hp. now subst.
  - destruct l' as [|a' l'].
    { apply Permutation_sym in Hp. now apply Permutation_nil in Hp. }
    apply StronglySorted_inv in Hs, Hs'.
    destruct Hs as [Hs Ha], Hs' as [Hs' Ha'].
    rewrite Forall_forall in Ha, Ha'.
    assert (E : a = a').
    { assert (H1 : In a (a' :: l'))
        by (apply (Permutation_in _ Hp); now left).
      assert (H2 : In a' (a :: l))
        by (apply (Permutation_in _ (Permutation_sym Hp)); now left).
      destruct H1 as [H1|H1]; [congruence|].
      destruct H2 as [H2|H2]; [congruence|].
      apply Hanti.
      - now left.
      - now right.
      - now apply Ha.
      - now apply Ha'. }
    subst a'. f_equal. apply IH; try assumption.
    + intros x y Hx Hy. apply Hanti; now right.
    + now apply Permutation_cons_inv in Hp.
Qed.

Lemma orderBy_rating_desc_perm_eq (df df' : list RatingPercentage) :
  NoDup (map pct_rating df) -> Permutation df df' ->
  orderBy_rating_desc df = orderBy_rating_desc df'.
Proof.
  intros Hnd Hp. apply (sorted_perm_eq rating_desc).
  - intros a b Ha Hb Hab Hba.
    apply (proj1 (in_orderBy_rating_desc _ _)) in Ha, Hb.
    apply (NoDup_map_injective pct_rating df a b Hnd Ha Hb).
    unfold rating_desc in *. now apply String.leb_antisym.
  - apply orderBy_rating_desc_sorted.
  - apply orderBy_rating_desc_sorted.
  - eapply perm_trans; [apply orderBy_rating_desc_perm|].
    eapply perm_trans; [exact Hp|].
    apply Permutation_sym, orderBy_rating_desc_perm.
Qed.

(** X13: the rows of the table in another order give the same result:
    the cell does not depend on the order of the rows it reads. *)
Theorem rating_percentages_row_order (t t' : list Product) (P : string) :
  Permutation t t' ->
  rating_percentages_df t P = rating_percentages_df t' P.
Proof.
  intros Hp.
  assert (HG : Permutation (rating_counts_df t P) (rating_counts_df t' P)).
  { unfold rating_counts_df. apply groupBy_count_perm.
    exact (ratings_of_perm t t' P Hp). }
  rewrite !rating_percentages_df_unfold.
  rewrite <- (agg_sum_perm _ _ HG).
  destruct (agg_sum (rating_counts_df t P)) as [|total l]; [reflexivity|].
  f_equal. apply orderBy_rating_desc_perm_eq.
  - rewrite map_with_percentage_rating. unfold rating_counts_df.
    apply NoDup_groupBy_count.
  - now apply Permutation_map.
Qed.

Lemma rating_percentages_row_order_witness :
  Permutation (map with_columns [block_0; block_21; block_30])
              (map with_columns [block_21; block_30; block_0]) /\
  rating_percentages_df (map with_columns [block_0; block_21; block_30]) "21" =
  rating_percentages_df (map with_columns [block_21; block_30; block_0]) "21".
Proof.
  assert (H : Permutation (map with_columns [block_0; block_21; block_30])
                          (map with_columns [block_21; block_30; block_0])).
  { cbn [map]. eapply perm_trans; [apply perm_swap|].
    apply perm_skip. apply perm_swap. }
  split; [exact H|].
  exact (rating_percentages_row_order _ _ "21" H).
Defined.

(* --------------------------------------------------------------------- *)
(** ** The matcher finds matches *)
(* --------------------------------------------------------------------- *)

Lemma star_greedy_sound (k : cls) (s : text) (cont : text -> outcome)
    (out : text * captures) :
  star_greedy (cls_matches k) s cont = Some out ->
  exists s', run k s s' /\ cont s' = Some out.
Proof.
  induction s as [|x s IH]; cbn.
  - intros H. exists []. split; [constructor|exact H].
  - destruct (cls_matches k x) eqn:E.
    + destruct (star_greedy (cls_matches k) s cont) as [o|] eqn:Es.
      * intros H. injection H as <-.
        destruct (IH eq_refl) as (s' & Hr & Hc).
        exists s'. split; [now constructor|exact Hc].
      * intros H. exists (x :: s). split; [constructor|exact H].
    + intros H. exists (x :: s). split; [constructor|exact H].
Qed.

Lemma star_lazy_sound (k : cls) (s : text) (cont : text -> outcome)
    (out : text * captures) :
  star_lazy (cls_matches k) s cont = Some out ->
  exists s', run k s s' /\ cont s' = Some out.
Proof.
  induction s as [|x s IH]; cbn.
  - destruct (cont []) as [o|] eqn:E; [|discriminate].
    intros H. exists []. split; [constructor|congruence].
  - destruct (cont (x :: s)) as [o|] eqn:E.
    + intros H. exists (x :: s). split; [constructor|congruence].
    + destruct (cls_matches k x) eqn:Ek; [|discriminate].
      intros H. destruct (IH H) as (s' & Hr & Hc).
      exists s'. split; [now constructor|exact Hc].
Qed.

(** A result of the matcher is a result of its continuation after a match
    of the pattern. *)
Lemma rmatch_sound (r : Pattern) :
  forall (s : text) (c : captures) (cont : text -> captures -> outcome)
         (out : text * captures),
    rmatch r s c cont = Some out ->
    exists s' c', matches r s c s' c' /\ cont s' c' = Some out.
Proof.
  induction r as [|t|k|k|k|k|r1 IH1 r2 IH2|n r IH];
    intros s c cont out; cbn [rmatch].
  - intros H. exists s, c. split; [constructor|exact H].
  - destruct (strip_prefix (list_ascii_of_string t) s) as [s'|] eqn:E;
      [|discriminate].
    intros H. exists s', c. split; [now constructor|exact H].
  - destruct s as [|x s]; [discriminate|].
    destruct (cls_matches k x) eqn:E; [|discriminate].
    intros H. exists s, c. split; [now constructor|exact H].
  - intros H. apply star_greedy_sound in H. destruct H as (s' & Hr & Hc).
    exists s', c. split; [now constructor|exact Hc].
  - destruct s as [|x s]; [discriminate|].
    destruct (cls_matches k x) eqn:E; [|discriminate].
    intros H. apply star_greedy_sound in H. destruct H as (s' & Hr & Hc).
    exists s', c. split; [now constructor|exact Hc].
  - intros H. apply star_lazy_sound in H. destruct H as (s' & Hr & Hc).
    exists s', c. split; [now constructor|exact Hc].
  - intros H. apply IH1 in H. destruct H as (s1 & c1 & Hm1 & H).
    apply IH2 in H. destruct H as (s2 & c2 & Hm2 & H).
    exists s2, c2. split; [econstructor; eassumption|exact H].
  - intros H. apply IH in H. destruct H as (s' & c' & Hm & H).
    exists s', ((n, consumed s s') :: c'). split; [now constructor|exact H].
Qed.

Lemma match_here_sound (r : Pattern) (s s' : text) (caps : captures) :
  match_here r s = Some (s', caps) -> matches r s [] s' caps.
Proof.
  unfold match_here. intros H. apply rmatch_sound in H.
  destruct H as (s1 & c1 & Hm & H). now injection H as <- <-.
Qed.

(** What [find] returns is a match at some position of the input. *)
Lemma find_at_sound (r : Pattern) (s : text) :
  forall (pre : text) (f : found),
    find_at r pre s = Some f ->
    exists skipped s0,
      s = skipped ++ s0 /\
      before f = rev pre ++ skipped /\
      matched f = consumed s0 (after f) /\
      matches r s0 [] (after f) (groups f).
Proof.
  induction s as [|x s IH]; intros pre f; cbn [find_at].
  - destruct (match_here r []) as [[s' caps]|] eqn:E; [|discriminate].
    intros H. injection H as <-. exists [], []. cbn.
    rewrite app_nil_r. repeat split. now apply match_here_sound.
  - destruct (match_here r (x :: s)) as [[s' caps]|] eqn:E.
    + intros H. injection H as <-. exists [], (x :: s). cbn.
      rewrite app_nil_r. repeat split. now apply match_here_sound.
    + intros H. apply IH in H.
      destruct H as (skipped & s0 & -> & Hb & Hm & Hmatch).
      exists (x :: skipped), s0. repeat split; try assumption.
      rewrite Hb. cbn. now rewrite <- app_assoc.
Qed.

Lemma run_split (k : cls) (s s' : text) :
  run k s s' ->
  exists pre, s = pre ++ s' /\ forallb (cls_matches k) pre = true.
Proof.
  induction 1 as [s|x s s' Hx _ (pre & -> & Hpre)].
  - now exists [].
  - exists (x :: pre). cbn. now rewrite Hx, Hpre.
Qed.

(** A match takes a prefix of the input. *)
Lemma matches_split (r : Pattern) (s s' : text) (c c' : captures) :
  matches r s c s' c' -> exists pre, s = pre ++ s'.
Proof.
  induction 1 as [s c|t s s' c Hs|k x s c Hx|k s s' c Hr|k x s s' c Hx Hr
                 |k s s' c Hr|r1 r2 s s1 s2 c c1 c2 _ [p1 ->] _ [p2 ->]
                 |n r s s' c c' _ IH].
  - now exists [].
  - revert s Hs. induction (list_ascii_of_string t) as [|a p IH];
      intros s Hs; cbn in Hs.
    + injection Hs as ->. now exists [].
    + destruct s as [|y s]; [discriminate|].
      destruct (Ascii.eqb a y); [|discriminate].
      destruct (IH s Hs) as [pre ->]. now exists (y :: pre).
  - now exists [x].
  - apply run_split in Hr. destruct Hr as (pre & -> & _). now exists pre.
  - apply run_split in Hr. destruct Hr as (pre & -> & _).
    now exists (x :: pre).
  - apply run_split in Hr. destruct Hr as (pre & -> & _). now exists pre.
  - exists (p1 ++ p2). now rewrite app_assoc.
  - exact IH.
Qed.

Lemma consumed_app (pre s' : text) : consumed (pre ++ s') s' = pre.
Proof.
  unfold consumed. rewrite length_app.
  replace (List.length pre + List.length s' - List.length s')%nat
    with (List.length pre) by lia.
  rewrite firstn_app, firstn_all, Nat.sub_diag. cbn. apply app_nil_r.
Qed.

(** The text before a match, the match and the text after it make up the
    input. *)
Lemma find_parts (r : Pattern) (s : text) (f : found) :
  find r s = Some f -> s = before f ++ matched f ++ after f.
Proof.
  unfold find. intros H. apply find_at_sound in H.
  destruct H as (skipped & s0 & -> & Hb & Hm & Hmatch).
  apply matches_split in Hmatch. destruct Hmatch as [pre E].
  rewrite Hb, Hm. cbn [rev app]. rewrite E at 2. rewrite consumed_app.
  now rewrite E.
Qed.

Lemma matches_groupless (r : Pattern) (s s' : text) (c c' : captures) :
  matches r s c s' c' -> groupless r = true -> c' = c.
Proof.
  induction 1; cbn; intros G; try reflexivity; try discriminate.
  apply andb_true_iff in G. destruct G as [G1 G2].
  rewrite IHmatches2 by exact G2. now apply IHmatches1.
Qed.

Lemma strip_prefix_length (p s s' : text) :
  strip_prefix p s = Some s' ->
  (List.length s = List.length p + List.length s')%nat.
Proof.
  revert s. induction p as [|a p IH]; intros s; cbn.
  - now intros [= ->].
  - destruct s as [|y s]; [discriminate|].
    destruct (Ascii.eqb a y); [|discriminate].
    intros H. apply IH in H. cbn. lia.
Qed.

Lemma matches_length (r : Pattern) (s s' : text) (c c' : captures) :
  matches r s c s' c' -> (List.length s' <= List.length s)%nat.
Proof.
  intros H. apply matches_split in H. destruct H as [pre ->].
  rewrite length_app. lia.
Qed.

Lemma matches_takes_some (r : Pattern) (s s' : text) (c c' : captures) :
  matches r s c s' c' -> takes_some r = true ->
  (List.length s' < List.length s)%nat.
Proof.
  induction 1 as [s c|t s s' c Hs|k x s c Hx|k s s' c Hr|k x s s' c Hx Hr
                 |k s s' c Hr|r1 r2 s s1 s2 c c1 c2 H1 IH1 H2 IH2
                 |n r s s' c c' H IH]; cbn; intros T; try discriminate.
  - apply strip_prefix_length in Hs.
    destruct t as [|a t]; [discriminate|]. cbn in Hs. lia.
  - lia.
  - apply run_split in Hr. destruct Hr as (pre & -> & _).
    rewrite length_app. lia.
  - apply matches_length in H1 as L1. apply matches_length in H2 as L2.
    apply orb_true_iff in T. destruct T as [T|T].
    + specialize (IH1 T). lia.
    + specialize (IH2 T). lia.
  - now apply IH.
Qed.

Lemma consumed_not_nil (s s' : text) :
  (List.length s' < List.length s)%nat -> consumed s s' <> [].
Proof.
  unfold consumed. intros L E.
  apply (f_equal (@List.length ascii)) in E.
  rewrite length_firstn in E. cbn in E. lia.
Qed.

(** A group around a pattern without inner groups records the text the
    pattern takes. *)
Lemma matches_group (n : nat) (r : Pattern) (s s' : text)
    (c c' : captures) :
  matches (Group n r) s c s' c' -> groupless r = true ->
  exists t, c' = (n, t) :: c /\ (takes_some r = true -> t <> []).
Proof.
  intros H G. inversion H as [| | | | | | |? ? ? ? ? c0 Hm]; subst.
  rewrite (matches_groupless _ _ _ _ _ Hm G).
  exists (consumed s s'). split; [reflexivity|].
  intros T. apply consumed_not_nil.
  exact (matches_takes_some _ _ _ _ _ Hm T).
Qed.

(** A group around [k+] records a run of characters of class [k] that is
    not empty. *)
Lemma matches_group_plus (n : nat) (k : cls) (s s' : text)
    (c c' : captures) :
  matches (Group n (Plus k)) s c s' c' ->
  exists t, c' = (n, t) :: c /\ t <> [] /\
            forallb (cls_matches k) t = true.
Proof.
  intros H. inversion H as [| | | | | | |? ? ? ? ? c0 Hm]; subst.
  inversion Hm as [| | | |? x s1 ? ? Hx Hr| | |]; subst.
  apply run_split in Hr. destruct Hr as (pre & -> & Hpre).
  exists (x :: pre). split; [|split].
  - pose proof (consumed_app (x :: pre) s') as E. cbn [app] in E.
    now rewrite E.
  - discriminate.
  - cbn. now rewrite Hx, Hpre.
Qed.

Lemma string_of_list_ascii_nil (t : text) :
  string_of_list_ascii t = EmptyString <-> t = [].
Proof. destruct t; cbn; split; congruence. Qed.

Lemma some_chars_text (p : ascii -> bool) (t : text) :
  t <> [] -> forallb p t = true -> some_chars p (string_of_list_ascii t).
Proof.
  intros Hne Hall. split.
  - now rewrite string_of_list_ascii_nil.
  - unfold all_chars. now rewrite list_ascii_of_string_of_list_ascii.
Qed.

Lemma cls_matches_Digit : cls_matches Digit = is_digit.
Proof. reflexivity. Qed.

Lemma cls_matches_Word : cls_matches Word = is_word.
Proof. reflexivity. Qed.

Ltac step_matches :=
  match goal with
  | H : matches (Seq _ _) _ _ _ _ |- _ => inversion H; subst; clear H
  | H : matches Eps _ _ _ _ |- _ => inversion H; subst; clear H
  | H : matches (Group _ (Plus _)) _ _ _ _ |- _ =>
      let t := fresh "t" in
      let Hne := fresh "Hne" in
      let Hall := fresh "Hall" in
      apply matches_group_plus in H; destruct H as (t & -> & Hne & Hall)
  | H : matches (Group _ _) _ _ _ _ |- _ =>
      let t := fresh "t" in
      let Hne := fresh "Hne" in
      apply matches_group in H; [|reflexivity];
      destruct H as (t & -> & Hne)
  | H : matches _ _ _ _ _ |- _ =>
      apply matches_groupless in H; [|reflexivity]; subst
  end.

(** The groups of a match of the id and ASIN pattern. *)
Lemma id_regex_groups (s s' : text) (caps : captures) :
  matches id_regex s [] s' caps ->
  exists t1 t2,
    caps = [(2%nat, t2); (1%nat, t1)] /\
    t1 <> [] /\ forallb is_digit t1 = true /\
    t2 <> [] /\ forallb is_word t2 = true.
Proof.
  unfold id_regex, seq. cbn [fold_right]. intros H.
  repeat step_matches.
  eexists _, _. split; [reflexivity|]. auto.
Qed.

Lemma find_groups (r : Pattern) (s : text) (f : found) :
  find r s = Some f ->
  exists s0, matches r s0 [] (after f) (groups f).
Proof.
  unfold find. intros H. apply find_at_sound in H.
  destruct H as (skipped & s0 & _ & _ & _ & Hm). now exists s0.
Qed.

(** The id of a block is empty or a run of digits, and with an id comes an
    ASIN made of word characters. *)
Lemma block_id_asin (v : string) :
  block_id v = EmptyString \/
  (some_chars is_digit (block_id v) /\ some_chars is_word (block_asin v)).
Proof.
  unfold block_id, block_asin, regexp_extract.
  destruct (find id_regex (list_ascii_of_string v)) as [f|] eqn:E;
    [|now left].
  right. apply find_groups in E. destruct E as (s0 & Hm).
  apply id_regex_groups in Hm.
  destruct Hm as (t1 & t2 & -> & N1 & D1 & N2 & D2).
  cbn. split; now apply some_chars_text.
Qed.

(** X14: every row of [metadata_df] has an id that is a run of at least
    one decimal digit and an ASIN that is a run of at least one word
    character. *)
Theorem metadata_df_id_digits (meta_file : string) (r : Product) :
  In r (metadata_df meta_file) ->
  some_chars is_digit (id r) /\ some_chars is_word (asin r).
Proof.
  intros Hr. apply in_metadata_df in Hr.
  destruct Hr as (v & _ & -> & Hid).
  destruct (block_id_asin v) as [E|H]; [contradiction|exact H].
Qed.

Lemma metadata_df_id_digits_witness :
  In (with_columns block_21) (metadata_df meta_example) /\
  some_chars is_digit (id (with_columns block_21)) /\
  some_chars is_word (asin (with_columns block_21)).
Proof.
  assert (H : In (with_columns block_21) (metadata_df meta_example))
    by (vm_compute; auto).
  split; [exact H|].
  exact (metadata_df_id_digits meta_example (with_columns block_21) H).
Defined.

Lemma regexp_extract_group (v : string) (r : Pattern) (f : found)
    (n : nat) (t : text) :
  find r (list_ascii_of_string v) = Some f ->
  lookup_group (S n) (groups f) = Some t ->
  regexp_extract v r (S n) = string_of_list_ascii t.
Proof. intros Hf Hl. unfold regexp_extract. now rewrite Hf, Hl. Qed.

Lemma cls_matches_Dot : cls_matches Dot = is_dot.
Proof. reflexivity. Qed.

(** The groups of a match of the composite pattern. *)
Lemma regex_groups (s s' : text) (caps : captures) :
  matches regex s [] s' caps ->
  exists t1 t2 t3 t4 t5 t6 t7 t8 t9 t10 t11 t12 t13,
    caps = [(13%nat, t13); (12%nat, t12); (11%nat, t11); (10%nat, t10);
            (9%nat, t9); (8%nat, t8); (7%nat, t7); (6%nat, t6);
            (5%nat, t5); (4%nat, t4); (3%nat, t3); (2%nat, t2);
            (1%nat, t1)] /\
    t3 <> [] /\
    (t4 <> [] /\ forallb is_dot t4 = true) /\
    t5 <> [] /\
    (t6 <> [] /\ forallb is_digit t6 = true) /\
    (t8 <> [] /\ forallb is_digit t8 = true) /\
    (t10 <> [] /\ forallb is_digit t10 = true) /\
    (t11 <> [] /\ forallb is_digit t11 = true) /\
    t12 <> [].
Proof.
  unfold regex, seq. cbn [fold_right]. intros H.
  repeat step_matches.
  repeat match goal with
         | H : takes_some _ = true -> _ |- _ => specialize (H eq_refl)
         end.
  do 13 eexists. split; [reflexivity|].
  repeat split; assumption.
Qed.

(** X15: the composite pattern fills its columns all together or not at
    all: either it does not match the block and the row is the row of
    defaults, or the title, the group (a text without line break), the
    sales rank and the average rating are not empty and the four counts
    are runs of at least one digit. *)
Theorem with_columns_all_or_nothing (v : string) :
  (composite_fails v /\ with_columns v = defaults_row v) \/
  (title (with_columns v) <> EmptyString /\
   some_chars is_dot (group (with_columns v)) /\
   salesrank (with_columns v) <> EmptyString /\
   some_chars is_digit (similar_count (with_columns v)) /\
   some_chars is_digit (categories_count (with_columns v)) /\
   some_chars is_digit (reviews_total (with_columns v)) /\
   some_chars is_digit (reviews_downloaded (with_columns v)) /\
   reviews_avg_rating (with_columns v) <> EmptyString).
Proof.
  destruct (find regex (list_ascii_of_string v)) as [f|] eqn:E.
  - right. pose proof (find_groups _ _ _ E) as (s0 & Hm).
    apply regex_groups in Hm.
    destruct Hm as (t1 & t2 & t3 & t4 & t5 & t6 & t7 & t8 & t9 & t10 & t11
                    & t12 & t13 & Hcaps & H3 & [H4 D4] & H5 & [H6 D6]
                    & [H8 D8] & [H10 D10] & [H11 D11] & H12).
    cbn [with_columns title group salesrank similar_count categories_count
         reviews_total reviews_downloaded reviews_avg_rating].
    rewrite (regexp_extract_group v regex f 2 t3 E)
      by (rewrite Hcaps; reflexivity).
    rewrite (regexp_extract_group v regex f 3 t4 E)
      by (rewrite Hcaps; reflexivity).
    rewrite (regexp_extract_group v regex f 4 t5 E)
      by (rewrite Hcaps; reflexivity).
    rewrite (regexp_extract_group v regex f 5 t6 E)
      by (rewrite Hcaps; reflexivity).
    rewrite (regexp_extract_group v regex f 7 t8 E)
      by (rewrite Hcaps; reflexivity).
    rewrite (regexp_extract_group v regex f 9 t10 E)
      by (rewrite Hcaps; reflexivity).
    rewrite (regexp_extract_group v regex f 10 t11 E)
      by (rewrite Hcaps; reflexivity).
    rewrite (regexp_extract_group v regex f 11 t12 E)
      by (rewrite Hcaps; reflexivity).
    repeat match goal with |- _ /\ _ => split end;
      first [ now apply some_chars_text
            | rewrite string_of_list_ascii_nil; assumption ].
  - left. split; [exact E|]. now apply with_columns_composite_fails.
Qed.

(* --------------------------------------------------------------------- *)
(** ** The ratings that are grouped *)
(* --------------------------------------------------------------------- *)

Lemma rating_regex_groups (s s' : text) (caps : captures) :
  matches rating_regex s [] s' caps ->
  exists t, caps = [(1%nat, t)] /\ t <> [] /\ forallb is_digit t = true.
Proof.
  unfold rating_regex, seq. cbn [fold_right]. intros H.
  repeat step_matches.
  eexists. split; [reflexivity|]. auto.
Qed.

(** The rating read off a review line is a run of digits, or the empty
    string when the line has no rating. *)
Lemma review_rating_digits (rv : string) :
  regexp_extract rv rating_regex 1 = EmptyString \/
  some_chars is_digit (regexp_extract rv rating_regex 1).
Proof.
  unfold regexp_extract.
  destruct (find rating_regex (list_ascii_of_string rv)) as [f|] eqn:E;
    [|now left].
  right. apply find_groups in E. destruct E as (s0 & Hm).
  apply rating_regex_groups in Hm. destruct Hm as (t & -> & Hne & Hd).
  cbn. now apply some_chars_text.
Qed.

(** X16: the cell never raises, and the rating of every returned row is
    a run of decimal digits or, for review lines without a rating, the
    empty string. *)
Theorem rating_percentages_ratings_digits (node_metadata_df : list Product)
    (P : string) :
  exists rows,
    rating_percentages_df node_metadata_df P = Return rows /\
    forall r, In r rows ->
      pct_rating r = EmptyString \/ some_chars is_digit (pct_rating r).
Proof.
  destruct (rating_percentages_df_returns node_metadata_df P)
    as (total & _ & Hret).
  eexists. split; [exact Hret|].
  intros r Hr. apply (proj1 (in_orderBy_rating_desc _ _)) in Hr.
  apply in_map_iff in Hr. destruct Hr as (g & <- & Hg).
  unfold rating_counts_df in Hg. apply in_groupBy_count in Hg.
  destruct Hg as [Hin _]. cbn [with_percentage pct_rating].
  apply in_map_iff in Hin. destruct Hin as (rv & <- & Hrv).
  unfold product_21_reviews_df in Hrv. apply in_map_iff in Hrv.
  destruct Hrv as (line & <- & _). cbn [review_rating].
  apply review_rating_digits.
Qed.

(* --------------------------------------------------------------------- *)
(** ** Arrays are never empty *)
(* --------------------------------------------------------------------- *)

(** X17: the three array columns of a parsed row have at least one
    element each, so [explode] gives at least one row for every product:
    on a parsed table the cell of Q1 returns the empty sequence exactly
    for an id that no row has. *)
Theorem metadata_df_arrays_not_empty (meta_file : string) :
  (forall r, In r (metadata_df meta_file) ->
     similar r <> [] /\ categories r <> [] /\ reviews r <> []) /\
  (forall P,
     rating_percentages_df (metadata_df meta_file) P = Return [] <->
     forall r, In r (metadata_df meta_file) -> id r <> P).
Proof.
  split.
  - intros r Hr. apply in_metadata_df in Hr.
    destruct Hr as (v & _ & -> & _).
    cbn [with_columns similar categories reviews].
    repeat split; apply split_not_nil.
  - intros P. apply rating_percentages_df_nil_iff.
Qed.

(* --------------------------------------------------------------------- *)
(** ** Splitting on a literal separator loses nothing *)
(* --------------------------------------------------------------------- *)

Lemma string_of_list_ascii_app (a b : text) :
  string_of_list_ascii (a ++ b) =
  (string_of_list_ascii a ++ string_of_list_ascii b)%string.
Proof. induction a as [|x a IH]; cbn; [reflexivity|now rewrite IH]. Qed.

Lemma strip_prefix_app (p s s' : text) :
  strip_prefix p s = Some s' -> s = p ++ s'.
Proof.
  revert s. induction p as [|a p IH]; intros s; cbn.
  - now intros [= ->].
  - destruct s as [|y s]; [discriminate|].
    destruct (Ascii.eqb_spec a y) as [->|]; [|discriminate].
    intros H. now rewrite (IH s H).
Qed.

(** A match of a literal is the literal. *)
Lemma find_Str_matched (sep : string) (s : text) (f : found) :
  find (Str sep) s = Some f -> matched f = list_ascii_of_string sep.
Proof.
  unfold find. intros H. apply find_at_sound in H.
  destruct H as (skipped & s0 & _ & _ & Hm & Hmatch).
  inversion Hmatch as [|? ? ? ? Hs| | | | | |]; subst.
  apply strip_prefix_app in Hs. rewrite Hm, Hs. apply consumed_app.
Qed.

Lemma concat_cons (sep x : string) (l : list string) :
  l <> [] ->
  String.concat sep (x :: l) = (x ++ sep ++ String.concat sep l)%string.
Proof. destruct l; [contradiction|reflexivity]. Qed.

Lemma split_fuel_concat (sep : string) (fuel : nat) :
  forall s : text,
    String.concat sep
      (map string_of_list_ascii (split_fuel fuel (Str sep) s)) =
    string_of_list_ascii s.
Proof.
  induction fuel as [|fuel IH]; intros s; cbn [split_fuel].
  - reflexivity.
  - destruct (find (Str sep) s) as [f|] eqn:E; [|reflexivity].
    pose proof (find_Str_matched _ _ _ E) as Hm.
    pose proof (find_parts _ _ _ E) as Hs.
    destruct (matched f) as [|c m] eqn:Em; [reflexivity|].
    cbn [map]. rewrite concat_cons.
    + rewrite IH, Hs, Hm.
      rewrite !string_of_list_ascii_app.
      now rewrite string_of_list_ascii_of_string.
    + intros H. apply map_eq_nil in H.
      now apply split_fuel_not_nil in H.
Qed.

Lemma split_concat (s sep : string) :
  String.concat sep (split s (Str sep)) = s.
Proof.
  unfold split. rewrite split_fuel_concat.
  apply string_of_list_ascii_of_string.
Qed.

Lemma drop_last_empty_cases (l : list string) :
  drop_last_empty l = l \/ l = drop_last_empty l ++ [EmptyString].
Proof.
  induction l as [|x l IH]; [now left|].
  destruct l as [|y l].
  - cbn. destruct (String.eqb_spec x EmptyString) as [->|]; auto.
  - change (drop_last_empty (x :: y :: l))
      with (x :: drop_last_empty (y :: l)).
    destruct IH as [IH|IH].
    + left. now rewrite IH.
    + right. cbn [app]. now rewrite <- IH.
Qed.

(** X18: splitting on a literal separator loses no text: the pieces
    joined by the separator are the input.  So the [reviews] and
    [categories] arrays joined by CR LF are the texts the composite pattern
    captured, and the blocks of the metadata file joined by the blank-line
    boundary are the file, up to one boundary at its end. *)
Theorem split_join_round_trip :
  (forall s sep : string, String.concat sep (split s (Str sep)) = s) /\
  (forall v : string,
     String.concat CRLF (reviews (with_columns v)) =
       regexp_extract v regex 13 /\
     String.concat CRLF (categories (with_columns v)) =
       regexp_extract v regex 9) /\
  (forall meta_file : string,
     blocks_file (df1 meta_file) = meta_file \/
     blocks_file (df1 meta_file ++ [EmptyString]) = meta_file).
Proof.
  split; [exact split_concat|]. split.
  - intros v. cbn [with_columns reviews categories].
    split; apply split_concat.
  - intros meta_file. unfold blocks_file, df1, read_text.
    destruct (drop_last_empty_cases
                (split meta_file (Str (CRLF ++ CRLF)))) as [E|E].
    + left. rewrite E. apply split_concat.
    + right. rewrite <- E. apply split_concat.
Qed.

(* --------------------------------------------------------------------- *)
(** ** The pieces of a split hold no separator *)
(* --------------------------------------------------------------------- *)

Lemma strip_prefix_self (p c : text) : strip_prefix p (p ++ c) = Some c.
Proof.
  induction p as [|a p IH]; cbn; [reflexivity|].
  now rewrite Ascii.eqb_refl.
Qed.

Lemma strip_prefix_longer (p b c r : text) :
  strip_prefix p b = Some r -> strip_prefix p (b ++ c) = Some (r ++ c).
Proof.
  revert b. induction p as [|a p IH]; intros b; cbn.
  - now intros [= ->].
  - destruct b as [|y b]; [discriminate|]. cbn.
    destruct (Ascii.eqb a y); [apply IH|discriminate].
Qed.

Lemma strip_prefix_none_shorter (p b c : text) :
  strip_prefix p (b ++ c) = None -> strip_prefix p b = None.
Proof.
  intros H. destruct (strip_prefix p b) as [r|] eqn:E; [|reflexivity].
  rewrite (strip_prefix_longer _ _ c _ E) in H. discriminate.
Qed.

Lemma match_here_Str (sep : string) (s : text) :
  match_here (Str sep) s =
  match strip_prefix (list_ascii_of_string sep) s with
  | Some s' => Some (s', [])
  | None => None
  end.
Proof. reflexivity. Qed.

(** [find] returns the leftmost match: the literal matches at no earlier
    position. *)
Lemma find_at_Str_leftmost (sep : string) (s : text) :
  forall (pre : text) (f : found),
    find_at (Str sep) pre s = Some f ->
    exists skipped s0,
      s = skipped ++ s0 /\ before f = rev pre ++ skipped /\
      forall a b, skipped = a ++ b -> b <> [] ->
                  strip_prefix (list_ascii_of_string sep) b = None.
Proof.
  induction s as [|x s IH]; intros pre f; cbn [find_at];
    rewrite match_here_Str.
  - destruct (strip_prefix (list_ascii_of_string sep) []) as [s'|];
      [|discriminate].
    intros [= <-]. exists [], []. cbn. rewrite app_nil_r.
    repeat split. intros a b H Hb.
    symmetry in H. apply app_eq_nil in H. tauto.
  - destruct (strip_prefix (list_ascii_of_string sep) (x :: s))
      as [s'|] eqn:E.
    + intros [= <-]. exists [], (x :: s). cbn. rewrite app_nil_r.
      repeat split. intros a b H Hb.
      symmetry in H. apply app_eq_nil in H. tauto.
    + intros H. apply IH in H.
      destruct H as (skipped & s0 & -> & Hb & Hleft).
      exists (x :: skipped), s0. repeat split.
      * rewrite Hb. cbn. now rewrite <- app_assoc.
      * intros a b H Hne. destruct a as [|y a].
        -- cbn in H. subst b.
           apply (strip_prefix_none_shorter _ _ s0).
           exact E.
        -- cbn in H. injection H as _ H. now apply (Hleft a b).
Qed.

Lemma find_at_Str_none (sep : string) (s : text) :
  forall pre : text,
    find_at (Str sep) pre s = None ->
    forall a b, s = a ++ b ->
                strip_prefix (list_ascii_of_string sep) b = None.
Proof.
  induction s as [|x s IH]; intros pre; cbn [find_at];
    rewrite match_here_Str.
  - destruct (strip_prefix (list_ascii_of_string sep) []) as [s'|] eqn:E;
      [discriminate|].
    intros _ a b H. symmetry in H. apply app_eq_nil in H.
    destruct H as [_ ->]. exact E.
  - destruct (strip_prefix (list_ascii_of_string sep) (x :: s))
      as [s'|] eqn:E; [discriminate|].
    intros H a b Hab. destruct a as [|y a].
    + cbn in Hab. now subst b.
    + cbn in Hab. injection Hab as _ Hab. exact (IH _ H a b Hab).
Qed.

Lemma not_occurs (p s : text) :
  p <> [] ->
  (forall a b, s = a ++ b -> b <> [] -> strip_prefix p b = None) ->
  ~ occurs p s.
Proof.
  intros Hp H (a & c & E).
  assert (Hb : p ++ c <> []).
  { intros Hnil. apply app_eq_nil in Hnil. tauto. }
  specialize (H a (p ++ c) E Hb).
  now rewrite strip_prefix_self in H.
Qed.

Lemma split_fuel_pieces (sep : string) (fuel : nat) :
  sep <> EmptyString ->
  forall s : text,
    (List.length s < fuel)%nat ->
    forall piece, In piece (split_fuel fuel (Str sep) s) ->
                  ~ occurs (list_ascii_of_string sep) piece.
Proof.
  intros Hsep.
  assert (Hp : list_ascii_of_string sep <> []).
  { destruct sep; [contradiction|discriminate]. }
  induction fuel as [|fuel IH]; intros s Hlen piece Hin; [lia|].
  cbn [split_fuel] in Hin.
  destruct (find (Str sep) s) as [f|] eqn:E.
  - pose proof (find_Str_matched _ _ _ E) as Hm.
    pose proof (find_parts _ _ _ E) as Hs.
    destruct (matched f) as [|c m] eqn:Em; [now rewrite Hm in Hp|].
    destruct Hin as [<-|Hin].
    + unfold find in E. apply find_at_Str_leftmost in E.
      destruct E as (skipped & s0 & _ & Hb & Hleft).
      cbn in Hb. rewrite Hb. now apply not_occurs.
    + apply (IH (after f)); [|exact Hin].
      rewrite Hs in Hlen. rewrite !length_app in Hlen. cbn in Hlen. lia.
  - destruct Hin as [<-|[]]. apply not_occurs; [exact Hp|].
    intros a b Hab _. exact (find_at_Str_none _ _ _ E a b Hab).
Qed.

Lemma in_drop_last_empty (l : list string) (x : string) :
  In x (drop_last_empty l) -> In x l.
Proof.
  induction l as [|y l IH]; [tauto|].
  destruct l as [|z l].
  - cbn. destruct (String.eqb y EmptyString); cbn; tauto.
  - change (drop_last_empty (y :: z :: l))
      with (y :: drop_last_empty (z :: l)).
    intros [->|H]; [now left|right; now apply IH].
Qed.

Lemma length_list_ascii_of_string (s : string) :
  List.length (list_ascii_of_string s) = String.length s.
Proof. induction s as [|c s IH]; cbn; congruence. Qed.

Lemma split_pieces (s sep x : string) :
  sep <> EmptyString -> In x (split s (Str sep)) ->
  ~ occurs (list_ascii_of_string sep) (list_ascii_of_string x).
Proof.
  intros Hsep Hin. unfold split in Hin. apply in_map_iff in Hin.
  destruct Hin as (piece & <- & Hin).
  rewrite list_ascii_of_string_of_list_ascii.
  apply (split_fuel_pieces sep (S (String.length s)) Hsep
           (list_ascii_of_string s)); [|exact Hin].
  rewrite length_list_ascii_of_string. lia.
Qed.

(** X19: a piece of a split on a literal separator holds no occurrence of
    the separator: no element of the [reviews] and [categories] arrays
    holds a CR LF, and no block of the metadata file holds the blank-line
    boundary. *)
Theorem split_pieces_without_separator :
  (forall s sep x : string,
     sep <> EmptyString -> In x (split s (Str sep)) ->
     ~ occurs (list_ascii_of_string sep) (list_ascii_of_string x)) /\
  (forall v x : string,
     In x (reviews (with_columns v)) \/ In x (categories (with_columns v)) ->
     ~ occurs (list_ascii_of_string CRLF) (list_ascii_of_string x)) /\
  (forall meta_file v : string,
     In v (df1 meta_file) ->
     ~ occurs (list_ascii_of_string (CRLF ++ CRLF))
              (list_ascii_of_string v)).
Proof.
  split; [exact split_pieces|]. split.
  - intros v x [H|H]; cbn [with_columns reviews categories] in H;
      refine (split_pieces _ CRLF x _ H); discriminate.
  - intros meta_file v H. unfold df1, read_text in H.
    apply in_drop_last_empty in H.
    refine (split_pieces _ (CRLF ++ CRLF) v _ H). discriminate.
Qed.

(* --------------------------------------------------------------------- *)
(** ** The loader: node ids fit 32 bits *)
(* --------------------------------------------------------------------- *)

Lemma in_int_range_some (n m : Z) :
  in_int_range n = Some m -> m = n /\ int_min <= m <= int_max.
Proof.
  unfold in_int_range.
  destruct (int_min <=? n) eqn:E1, (n <=? int_max) eqn:E2; cbn;
    try discriminate.
  intros [= <-]. lia.
Qed.

Lemma decimal_int_range (s : text) (n : Z) :
  decimal_int s = Some n -> int_min <= n <= int_max.
Proof.
  unfold decimal_int. destruct s as [|c s]; [discriminate|].
  destruct (Ascii.eqb c "-"); [|destruct (Ascii.eqb c "+")];
    match goal with
    | |- context [unsigned_digits ?x] => destruct (unsigned_digits x)
    end; try discriminate; intros H; now apply in_int_range_some in H.
Qed.

Lemma parseInt_range (spark : SparkSession) (s : text) (n : Z) :
  parseInt spark s = Some n -> int_min <= n <= int_max.
Proof.
  unfold parseInt. destruct (forallb is_ascii s).
  - apply decimal_int_range.
  - destruct (parseInt_unicode spark s); [|discriminate].
    intros H. now apply in_int_range_some in H.
Qed.

Lemma integer_field_range (spark : SparkSession) (tokens : list text)
    (i : nat) (n : Z) :
  integer_field spark tokens i = Some n -> int_min <= n <= int_max.
Proof.
  intros H. apply integer_field_some in H. destruct H as (t & _ & H).
  now apply parseInt_range in H.
Qed.

(* --------------------------------------------------------------------- *)
(** ** The loader reads back what the format writes *)
(* --------------------------------------------------------------------- *)

Lemma list_ascii_of_string_app (a b : string) :
  list_ascii_of_string (a ++ b) =
  list_ascii_of_string a ++ list_ascii_of_string b.
Proof. induction a as [|c a IH]; cbn; [reflexivity|now rewrite IH]. Qed.

Lemma append_empty_r (s : string) : (s ++ EmptyString)%string = s.
Proof. induction s as [|c s IH]; cbn; [reflexivity|now rewrite IH]. Qed.

Lemma concat_empty_cons (x : string) (l : list string) :
  String.concat EmptyString (x :: l) =
  (x ++ String.concat EmptyString l)%string.
Proof.
  destruct l as [|y l]; cbn; [now rewrite append_empty_r|reflexivity].
Qed.

Lemma lf_lines_chars (ls : list string) :
  list_ascii_of_string (lf_lines ls) =
  flat_map (fun l => list_ascii_of_string l ++ [LF]) ls.
Proof.
  unfold lf_lines. induction ls as [|l ls IH]; [reflexivity|].
  cbn [map flat_map]. rewrite concat_empty_cons.
  rewrite !list_ascii_of_string_app, IH. reflexivity.
Qed.

Lemma lines_from_line (l : text) :
  forallb (fun c => negb (Ascii.eqb c LF || Ascii.eqb c CR)) l = true ->
  forall cur rest,
    lines_from cur (l ++ LF :: rest) = (rev cur ++ l) :: lines_from [] rest.
Proof.
  induction l as [|c l IH]; intros H cur rest.
  - cbn. now rewrite app_nil_r.
  - cbn in H. apply andb_true_iff in H. destruct H as [Hc Hl].
    apply negb_true_iff, orb_false_iff in Hc. destruct Hc as [H1 H2].
    cbn [app lines_from]. rewrite H1, H2, (IH Hl). cbn.
    now rewrite <- app_assoc.
Qed.

Lemma file_lines_lf_lines (ls : list string) :
  Forall (fun l => one_line l = true) ls ->
  file_lines (lf_lines ls) = map list_ascii_of_string ls.
Proof.
  unfold file_lines. rewrite lf_lines_chars.
  induction 1 as [|l ls Hl _ IH]; [reflexivity|].
  cbn [flat_map map]. rewrite <- app_assoc. cbn [app].
  rewrite (lines_from_line _ Hl). cbn. now rewrite IH.
Qed.

Lemma digit_is_not (k c : ascii) :
  is_digit k = false -> is_digit c = true -> Ascii.eqb c k = false.
Proof.
  intros Hk Hc. destruct (Ascii.eqb_spec c k); [congruence|reflexivity].
Qed.

Lemma decimal_uint_digits (d : Decimal.uint) :
  forallb is_digit (list_ascii_of_string (DecimalString.NilEmpty.string_of_uint d)) = true.
Proof. induction d; cbn; auto. Qed.

Lemma decimal_digits (n : N) :
  forallb is_digit (list_ascii_of_string (decimal n)) = true.
Proof. apply decimal_uint_digits. Qed.

Lemma decimal_not_empty (n : N) : list_ascii_of_string (decimal n) <> [].
Proof.
  unfold decimal. intros H.
  pose proof (DecimalN.Unsigned.of_to n) as E.
  destruct (N.to_uint n) eqn:En; try discriminate H.
  cbn in E. subst n. discriminate En.
Qed.

Ltac eval_digit_code :=
  match goal with
  | |- context [Z.of_N (code ?c)] =>
      let v := eval vm_compute in (Z.of_N (code c)) in
      change (Z.of_N (code c)) with v
  end.

Lemma digits_value_acc (d : Decimal.uint) (acc : positive) :
  digits_value (Z.pos acc)
    (list_ascii_of_string (DecimalString.NilEmpty.string_of_uint d)) =
  Some (Z.pos (Pos.of_uint_acc d acc)).
Proof.
  revert acc.
  induction d; intros acc;
    cbn [DecimalString.NilEmpty.string_of_uint list_ascii_of_string
         digits_value Pos.of_uint_acc];
    [reflexivity|..];
    match goal with
    | |- context [is_digit ?c] =>
        replace (is_digit c) with true by reflexivity
    end;
    rewrite <- IHd; f_equal; eval_digit_code; lia.
Qed.

Lemma digits_value_uint (d : Decimal.uint) :
  digits_value 0
    (list_ascii_of_string (DecimalString.NilEmpty.string_of_uint d)) =
  Some (Z.of_N (N.of_uint d)).
Proof.
  induction d;
    cbn [DecimalString.NilEmpty.string_of_uint list_ascii_of_string
         digits_value];
    [reflexivity|..];
    match goal with
    | |- context [is_digit ?c] =>
        replace (is_digit c) with true by reflexivity
    end;
    [exact IHd|..];
    cbn [N.of_uint Pos.of_uint Z.of_N];
    rewrite <- digits_value_acc; f_equal.
Qed.

(** Reading the decimal notation of a number gives the number, when it
    fits 32 bits. *)
Lemma decimal_int_decimal (n : N) :
  decimal_int (list_ascii_of_string (decimal n)) = in_int_range (Z.of_N n).
Proof.
  pose proof (decimal_digits n) as Hd.
  pose proof (decimal_not_empty n) as Hne.
  pose proof (digits_value_uint (N.to_uint n)) as Hv.
  rewrite DecimalN.Unsigned.of_to in Hv. fold (decimal n) in Hv.
  unfold decimal_int.
  destruct (list_ascii_of_string (decimal n)) as [|c s] eqn:E;
    [contradiction|].
  cbn in Hd. apply andb_true_iff in Hd. destruct Hd as [Hc _].
  rewrite (digit_is_not "-" c) by (reflexivity || exact Hc).
  rewrite (digit_is_not "+" c) by (reflexivity || exact Hc).
  unfold unsigned_digits. now rewrite Hv.
Qed.

Lemma digits_no_break (l : text) :
  forallb is_digit l = true ->
  forallb (fun c => negb (Ascii.eqb c LF || Ascii.eqb c CR)) l = true.
Proof.
  induction l as [|c l IH]; [reflexivity|]. cbn.
  intros H. apply andb_true_iff in H. destruct H as [Hc Hl].
  rewrite (digit_is_not LF c), (digit_is_not CR c), IH;
    reflexivity || assumption.
Qed.

Lemma edge_line_chars (e : N * N) :
  list_ascii_of_string (edge_line e) =
  list_ascii_of_string (decimal (fst e)) ++
  TAB :: list_ascii_of_string (decimal (snd e)).
Proof.
  unfold edge_line, tabbed. now rewrite list_ascii_of_string_app.
Qed.

Lemma one_line_edge_line (e : N * N) : one_line (edge_line e) = true.
Proof.
  unfold one_line. rewrite edge_line_chars, forallb_app. cbn.
  now rewrite !digits_no_break by apply decimal_digits.
Qed.

Lemma one_line_comment_line (c : string) :
  one_line c = true -> one_line (comment_line c) = true.
Proof. unfold one_line, comment_line. cbn. now intros ->. Qed.

Lemma kept_line_comment_line (c : string) :
  kept_line (list_ascii_of_string (comment_line c)) = false.
Proof. reflexivity. Qed.

Lemma kept_line_edge_line (e : N * N) :
  kept_line (list_ascii_of_string (edge_line e)) = true.
Proof.
  rewrite edge_line_chars.
  pose proof (decimal_digits (fst e)) as Hd.
  pose proof (decimal_not_empty (fst e)) as Hne.
  destruct (list_ascii_of_string (decimal (fst e))) as [|c s];
    [contradiction|].
  cbn in Hd. apply andb_true_iff in Hd. destruct Hd as [Hc _].
  unfold kept_line. cbn [app is_comment is_blank forallb].
  rewrite (digit_is_not HASH c) by (reflexivity || exact Hc).
  unfold is_digit, in_range in Hc. apply andb_true_iff in Hc.
  destruct Hc as [Hlo _]. apply N.leb_le in Hlo.
  destruct (N.leb_spec (code c) 32) as [Hle|_]; [lia|reflexivity].
Qed.

Lemma fields_from_field (l : text) :
  forallb is_digit l = true ->
  forall cur,
    (forall rest, fields_from cur (l ++ TAB :: rest) =
                  (rev cur ++ l) :: fields_from [] rest) /\
    fields_from cur l = [rev cur ++ l].
Proof.
  induction l as [|c l IH]; intros H cur.
  - cbn. rewrite app_nil_r. split; reflexivity.
  - cbn in H. apply andb_true_iff in H. destruct H as [Hc Hl].
    cbn [app fields_from].
    rewrite (digit_is_not TAB c) by (reflexivity || exact Hc).
    destruct (IH Hl (c :: cur)) as [H1 H2]. cbn [rev] in H1, H2.
    rewrite <- !app_assoc in H1, H2. cbn [app] in H1, H2.
    split; [intros rest; apply H1|exact H2].
Qed.

Lemma fields_edge_line (e : N * N) :
  fields (list_ascii_of_string (edge_line e)) =
  [list_ascii_of_string (decimal (fst e));
   list_ascii_of_string (decimal (snd e))].
Proof.
  rewrite edge_line_chars. unfold fields.
  destruct (fields_from_field _ (decimal_digits (fst e)) []) as [H1 _].
  destruct (fields_from_field _ (decimal_digits (snd e)) []) as [_ H2].
  now rewrite H1, H2.
Qed.

Lemma digit_is_ascii (c : ascii) : is_digit c = true -> is_ascii c = true.
Proof.
  unfold is_digit, in_range, is_ascii. intros H.
  apply andb_true_iff in H. destruct H as [_ H]. apply N.leb_le in H.
  apply N.ltb_lt. lia.
Qed.

Lemma digits_ascii (l : text) :
  forallb is_digit l = true -> forallb is_ascii l = true.
Proof.
  induction l as [|c l IH]; [reflexivity|]. cbn.
  intros H. apply andb_true_iff in H. destruct H as [Hc Hl].
  now rewrite (digit_is_ascii c Hc), IH.
Qed.

Lemma digit_no_quoting (c : ascii) :
  is_digit c = true ->
  (Ascii.eqb c DQUOTE || Ascii.eqb c BACKSLASH)%bool = false.
Proof.
  intros H.
  now rewrite (digit_is_not DQUOTE c), (digit_is_not BACKSLASH c).
Qed.

Lemma has_quoting_app (a b : text) :
  has_quoting (a ++ b) = (has_quoting a || has_quoting b)%bool.
Proof. unfold has_quoting. apply existsb_app. Qed.

Lemma digits_no_quoting (l : text) :
  forallb is_digit l = true -> has_quoting l = false.
Proof.
  unfold has_quoting. induction l as [|c l IH]; [reflexivity|]. cbn.
  intros H. apply andb_true_iff in H. destruct H as [Hc Hl].
  now rewrite (digit_no_quoting c Hc), IH.
Qed.

(** The converter reads the decimal notation of a number as the number,
    and as NULL when it does not fit 32 bits. *)
Lemma integer_field_decimal (spark : SparkSession) (n : N)
    (tokens : list text) (i : nat) :
  nth_error tokens i = Some (list_ascii_of_string (decimal n)) ->
  integer_field spark tokens i = in_int_range (Z.of_N n).
Proof.
  intros H. unfold integer_field. rewrite H.
  pose proof (decimal_not_empty n) as Hne.
  pose proof (decimal_int_decimal n) as Hp.
  pose proof (digits_ascii _ (decimal_digits n)) as Ha.
  destruct (list_ascii_of_string (decimal n)) as [|c t];
    [contradiction|].
  unfold parseInt. now rewrite Ha.
Qed.

Lemma edge_line_no_quoting (e : N * N) :
  has_quoting (list_ascii_of_string (edge_line e)) = false.
Proof.
  rewrite edge_line_chars.
  change (list_ascii_of_string (decimal (fst e)) ++
          TAB :: list_ascii_of_string (decimal (snd e)))
    with (list_ascii_of_string (decimal (fst e)) ++
          [TAB] ++ list_ascii_of_string (decimal (snd e))).
  rewrite !has_quoting_app.
  rewrite (digits_no_quoting _ (decimal_digits (fst e))),
          (digits_no_quoting _ (decimal_digits (snd e))).
  reflexivity.
Qed.

(** The row of a line written for an edge: an id that does not fit 32
    bits is read as NULL. *)
Lemma row_of_edge_line (spark : SparkSession) (e : N * N) :
  row_of_line spark (list_ascii_of_string (edge_line e)) =
  mkEdge (in_int_range (Z.of_N (fst e))) (in_int_range (Z.of_N (snd e))).
Proof.
  unfold row_of_line, parseLine. rewrite edge_line_no_quoting.
  rewrite fields_edge_line.
  now rewrite (integer_field_decimal spark (fst e)),
              (integer_field_decimal spark (snd e)).
Qed.

Lemma load_edge_file (spark : SparkSession) (comments : list string)
    (es : list (N * N)) :
  Forall (fun c => one_line c = true) comments ->
  load spark (edge_file comments es) =
  map (fun e => mkEdge (in_int_range (Z.of_N (fst e)))
                       (in_int_range (Z.of_N (snd e)))) es.
Proof.
  intros Hc. unfold load, edge_file.
  rewrite file_lines_lf_lines.
  - rewrite map_app, filter_app, map_app.
    match goal with
    | |- map _ ?X ++ _ = _ => assert (E1 : X = [])
    end.
    { clear Hc. induction comments as [|c cs IH]; [reflexivity|].
      cbn [map filter]. now rewrite kept_line_comment_line. }
    rewrite E1. cbn [map app].
    induction es as [|e es IH]; [reflexivity|].
    cbn [map filter]. rewrite kept_line_edge_line. cbn [map].
    now rewrite row_of_edge_line, IH.
  - apply Forall_app. split.
    + apply Forall_map. revert Hc. apply Forall_impl.
      intros c. apply one_line_comment_line.
    + apply Forall_map, Forall_forall. intros e _.
      apply one_line_edge_line.
Qed.

Lemma in_int_range_above (n : Z) : int_max < n -> in_int_range n = None.
Proof.
  intros H. unfold in_int_range.
  destruct (Z.leb_spec n int_max) as [Hle|_]; [lia|].
  now rewrite andb_false_r.
Qed.

(** X20: every node id of a loaded row fits a signed 32-bit integer, and
    a field that holds a larger number is loaded as NULL, not as a number
    that wraps around: on a line of the file that is kept and has no
    quoting, a first or second field that is the decimal notation of a
    number above 2147483647 gives a row with NULL in its column. *)
Theorem load_ids_fit_int (spark : SparkSession) (file : string) :
  (forall e, In e (load spark file) ->
     (forall n, FromNodeId e = Some n -> int_min <= n <= int_max) /\
     (forall n, ToNodeId e = Some n -> int_min <= n <= int_max)) /\
  (forall line i n,
     In line (file_lines file) -> kept_line line = true ->
     has_quoting line = false ->
     nth_error (fields line) i = Some (list_ascii_of_string (decimal n)) ->
     int_max < Z.of_N n ->
     In (row_of_line spark line) (load spark file) /\
     (i = 0%nat -> FromNodeId (row_of_line spark line) = None) /\
     (i = 1%nat -> ToNodeId (row_of_line spark line) = None)).
Proof.
  split.
  - unfold load. intros e H. apply in_map_iff in H.
    destruct H as (line & <- & _). unfold row_of_line. cbn.
    split; intros n; apply integer_field_range.
  - intros line i n Hin Hk Hq Hf Hbig. split.
    + unfold load. apply in_map. now apply filter_In.
    + unfold row_of_line, parseLine. rewrite Hq. cbn.
      split; intros ->;
        rewrite (integer_field_decimal spark n _ _ Hf);
        now apply in_int_range_above.
Qed.

(** A file whose one line has the number 2^32 + 1 in its first field: the
    row has NULL there, not 1. *)
Example load_number_above_int (spark : SparkSession) :
  load spark (lf_lines [tabbed "4294967297" "1"]) = [mkEdge None (Some 1)].
Proof. vm_compute. reflexivity. Qed.

(** X21: the loader reads back what the format writes: a file of comment
    lines followed by one line per edge, the two node ids in decimal with
    a tab between, loads as exactly those edges in the order of the lines,
    when the ids fit 32 bits. *)
Theorem load_edge_file_round_trip (spark : SparkSession)
    (comments : list string) (es : list (N * N)) :
  Forall (fun c => one_line c = true) comments ->
  Forall (fun e => (fst e <= 2147483647)%N /\ (snd e <= 2147483647)%N) es ->
  load spark (edge_file comments es) = map edge_of es.
Proof.
  intros Hc He. rewrite (load_edge_file spark comments es Hc).
  apply map_ext_in. intros e Hin.
  rewrite Forall_forall in He. destruct (He e Hin) as [H1 H2].
  unfold edge_of, edge, in_int_range, int_min, int_max.
  destruct (Z.leb_spec (-2147483648) (Z.of_N (fst e))); [|lia].
  destruct (Z.leb_spec (Z.of_N (fst e)) 2147483647); [|lia].
  destruct (Z.leb_spec (-2147483648) (Z.of_N (snd e))); [|lia].
  destruct (Z.leb_spec (Z.of_N (snd e)) 2147483647); [|lia].
  reflexivity.
Qed.

Lemma load_edge_file_round_trip_witness :
  Forall (fun c => one_line c = true)
         [" Directed graph: Amazon0601.txt"; " FromNodeId ToNodeId"]%string /\
  Forall (fun e => (fst e <= 2147483647)%N /\ (snd e <= 2147483647)%N)
         [(0, 1); (1, 0); (403393, 7)]%N /\
  load session (edge_file [" Directed graph: Amazon0601.txt";
                   " FromNodeId ToNodeId"]%string
                  [(0, 1); (1, 0); (403393, 7)]%N) =
  map edge_of [(0, 1); (1, 0); (403393, 7)]%N.
Proof.
  assert (Hc : Forall (fun c => one_line c = true)
         [" Directed graph: Amazon0601.txt"; " FromNodeId ToNodeId"]%string)
    by (repeat constructor).
  assert (He : Forall (fun e => (fst e <= 2147483647)%N /\
                                (snd e <= 2147483647)%N)
         [(0, 1); (1, 0); (403393, 7)]%N)
    by (repeat constructor; cbn; lia).
  split; [exact Hc|]. split; [exact He|].
  exact (load_edge_file_round_trip session _ _ Hc He).
Defined.

(* --------------------------------------------------------------------- *)
(** ** Line ends, and lines that are skipped *)
(* --------------------------------------------------------------------- *)

Lemma crlf_ended_chars (ls : list string) :
  list_ascii_of_string (crlf_ended ls) =
  flat_map (fun l => list_ascii_of_string l ++ [CR; LF]) ls.
Proof.
  unfold crlf_ended. induction ls as [|l ls IH]; [reflexivity|].
  cbn [map flat_map]. rewrite concat_empty_cons.
  rewrite !list_ascii_of_string_app, IH. reflexivity.
Qed.

Lemma lines_from_crlf_line (l : text) :
  forallb (fun c => negb (Ascii.eqb c LF || Ascii.eqb c CR)) l = true ->
  forall cur rest,
    lines_from cur (l ++ CR :: LF :: rest) =
    (rev cur ++ l) :: lines_from [] rest.
Proof.
  induction l as [|c l IH]; intros H cur rest.
  - cbn. now rewrite app_nil_r.
  - cbn in H. apply andb_true_iff in H. destruct H as [Hc Hl].
    apply negb_true_iff, orb_false_iff in Hc. destruct Hc as [H1 H2].
    cbn [app lines_from]. rewrite H1, H2, (IH Hl). cbn.
    now rewrite <- app_assoc.
Qed.

Lemma file_lines_crlf_ended (ls : list string) :
  Forall (fun l => one_line l = true) ls ->
  file_lines (crlf_ended ls) = map list_ascii_of_string ls.
Proof.
  unfold file_lines. rewrite crlf_ended_chars.
  induction 1 as [|l ls Hl _ IH]; [reflexivity|].
  cbn [flat_map map]. rewrite <- app_assoc. cbn [app].
  rewrite (lines_from_crlf_line _ Hl). cbn. now rewrite IH.
Qed.

(** X22: the line end may be LF or CR LF: the same lines ended with
    CR LF load as the same rows. *)
Theorem load_crlf_file (spark : SparkSession) (ls : list string) :
  Forall (fun l => one_line l = true) ls ->
  load spark (crlf_ended ls) = load spark (lf_lines ls).
Proof.
  intros H. unfold load.
  now rewrite file_lines_crlf_ended, file_lines_lf_lines.
Qed.

Lemma load_crlf_file_witness :
  Forall (fun l => one_line l = true)
         ["# FromNodeId ToNodeId"%string; tabbed "0" "1"; "5"%string;
          tabbed "1" "0"] /\
  load session (crlf_ended ["# FromNodeId ToNodeId"%string; tabbed "0" "1";
                            "5"%string; tabbed "1" "0"]) =
  load session (lf_lines ["# FromNodeId ToNodeId"%string; tabbed "0" "1";
                          "5"%string; tabbed "1" "0"]).
Proof.
  assert (H : Forall (fun l => one_line l = true)
         ["# FromNodeId ToNodeId"%string; tabbed "0" "1"; "5"%string;
          tabbed "1" "0"]) by (repeat constructor).
  split; [exact H|].
  exact (load_crlf_file session _ H).
Defined.

(** X23: a blank line or a comment line, wherever it stands in the file,
    changes nothing: the file loads as it does without that line. *)
Theorem load_skips_line_anywhere (spark : SparkSession)
    (ls1 ls2 : list string) (c : string) :
  Forall (fun l => one_line l = true) (ls1 ++ c :: ls2) ->
  is_blank (list_ascii_of_string c) = true \/
  is_comment (list_ascii_of_string c) = true ->
  load spark (lf_lines (ls1 ++ c :: ls2)) =
  load spark (lf_lines (ls1 ++ ls2)).
Proof.
  intros H Hc. unfold load.
  assert (H' : Forall (fun l => one_line l = true) (ls1 ++ ls2)).
  { apply Forall_app in H. destruct H as [H1 H2].
    apply Forall_app. split; [exact H1|]. now inversion H2. }
  rewrite !file_lines_lf_lines by assumption.
  rewrite !map_app, !filter_app. cbn [map filter].
  assert (E : kept_line (list_ascii_of_string c) = false).
  { unfold kept_line. destruct Hc as [-> | ->]; [reflexivity|].
    apply andb_false_r. }
  now rewrite E.
Qed.

Lemma load_skips_line_anywhere_witness :
  Forall (fun l => one_line l = true)
         ([tabbed "0" "1"] ++ "# a comment"%string :: [tabbed "1" "0"]) /\
  (is_blank (list_ascii_of_string "# a comment") = true \/
   is_comment (list_ascii_of_string "# a comment") = true) /\
  load session (lf_lines ([tabbed "0" "1"] ++ "# a comment"%string
                            :: [tabbed "1" "0"])) =
  load session (lf_lines ([tabbed "0" "1"] ++ [tabbed "1" "0"])).
Proof.
  assert (H : Forall (fun l => one_line l = true)
         ([tabbed "0" "1"] ++ "# a comment"%string :: [tabbed "1" "0"]))
    by (repeat constructor).
  assert (Hc : is_blank (list_ascii_of_string "# a comment") = true \/
               is_comment (list_ascii_of_string "# a comment") = true)
    by (right; reflexivity).
  split; [exact H|]. split; [exact Hc|].
  exact (load_skips_line_anywhere session _ _ _ H Hc).
Defined.
